(** * The session relay of server/index.js

    A shallow embedding of the WebSocket relay: the session table, the
    role binding kept on every socket, the four message handlers, the
    disconnect path and the heartbeat sweep, followed by the properties
    the specification states about them. *)

From Stdlib Require Import Ascii String ZArith NArith Zpow_facts.
From stdpp Require Import gmap strings list fin_maps.

Set Warnings "-clear-no-such-hyp,-implicit-create-rewrite-hint-db".

Local Open Scope string_scope.
Local Open Scope list_scope.

(** ** Data model *)

(** Sockets are JavaScript objects compared with [===]; the model names
    each object by a reference into a store of socket records. *)
Abbreviation SocketRef := nat.

(** [socket.readyState].  A server-side socket is handed to the
    [connection] callback already open, so CONNECTING never occurs. *)
Inductive ReadyState := OPEN | CLOSING | CLOSED.

(** [socket.clientInfo]: [{ role: 'dm', code }] or
    [{ role: 'player', code, playerId }]; [null] is [None]. *)
Inductive ClientInfo :=
  | RoleDm (code : string)
  | RolePlayer (code : string) (playerId : string).

Record Socket := mkSocket {
  readyState : ReadyState;
  isAlive : bool;
  clientInfo : option ClientInfo
}.

(** A session object [{ code, dm, players }].  [players] is a JavaScript
    [Map], iterated in insertion order, hence an association list. *)
Record Session := mkSession {
  code : string;
  dm : SocketRef;
  players : list (string * SocketRef)
}.

(** Values produced by [JSON.parse].  A number is kept as a decimal
    mantissa and exponent; the relay never computes with it. *)
#[warnings="-register-all"]
Inductive json :=
  | JNull
  | JBool (b : bool)
  | JNum (mantissa exponent : Z)
  | JStr (s : string)
  | JArr (items : list json)
  | JObj (fields : list (string * json)).

(** Frames written by [safeSend], one constructor per [type] tag. *)
Inductive Frame :=
  | SessionError (message : string)
  | SessionCreated (code : string)
  | SessionJoined (code playerId : string)
  | PlayerJoined (playerId : string)
  | PlayerLeft (playerId : string)
  | Relay (playerId : option string) (payload : json)
  | SessionClosed (message : option string).

(** The process state: the socket objects, [wss.clients] in insertion
    order, the [sessions] map, [clientCounter], and the frames sent so
    far, each with the socket it was written to. *)
Record State := mkState {
  sockets : gmap nat Socket;
  clients : list SocketRef;
  sessions : gmap string Session;
  clientCounter : N;
  outbox : list (SocketRef * Frame)
}.

Definition initial : State := mkState ∅ [] ∅ 0%N [].

(** ** State access *)

Definition deadSocket : Socket := mkSocket CLOSED false None.

Definition sock (st : State) (s : SocketRef) : Socket :=
  default deadSocket (sockets st !! s).

Definition info (st : State) (s : SocketRef) : option ClientInfo :=
  clientInfo (sock st s).

Definition is_open (st : State) (s : SocketRef) : bool :=
  match readyState (sock st s) with OPEN => true | _ => false end.

Definition updSock (s : SocketRef) (f : Socket → Socket) (st : State) : State :=
  mkState (<[s := f (sock st s)]> (sockets st)) (clients st) (sessions st)
          (clientCounter st) (outbox st).

Definition setSessions (m : gmap string Session) (st : State) : State :=
  mkState (sockets st) (clients st) m (clientCounter st) (outbox st).

Definition setInfo (s : SocketRef) (i : option ClientInfo) : State → State :=
  updSock s (λ k, mkSocket (readyState k) (isAlive k) i).

Definition setAlive (s : SocketRef) (b : bool) : State → State :=
  updSock s (λ k, mkSocket (readyState k) b (clientInfo k)).

Definition setReady (s : SocketRef) (r : ReadyState) : State → State :=
  updSock s (λ k, mkSocket r (isAlive k) (clientInfo k)).

(** [socket.close()]: an open socket starts the closing handshake; on a
    socket that is already closing or closed the call changes nothing. *)
Definition socketClose (s : SocketRef) : State → State :=
  updSock s (λ k, mkSocket (match readyState k with OPEN => CLOSING | r => r end)
                           (isAlive k) (clientInfo k)).

(** [socket.terminate()]: the channel is destroyed; the socket is
    CLOSING until its [close] event fires. *)
Definition terminate (s : SocketRef) : State → State :=
  updSock s (λ k, mkSocket (match readyState k with CLOSED => CLOSED | _ => CLOSING end)
                           (isAlive k) (clientInfo k)).

(** ** The players map *)

Fixpoint players_get (pid : string) (l : list (string * SocketRef)) : option SocketRef :=
  match l with
  | [] => None
  | (k, v) :: l' => if decide (k = pid) then Some v else players_get pid l'
  end.

Fixpoint players_set (pid : string) (s : SocketRef) (l : list (string * SocketRef))
  : list (string * SocketRef) :=
  match l with
  | [] => [(pid, s)]
  | (k, v) :: l' =>
      if decide (k = pid) then (k, s) :: l' else (k, v) :: players_set pid s l'
  end.

Definition players_delete (pid : string) (l : list (string * SocketRef))
  : list (string * SocketRef) :=
  filter (λ kv, kv.1 ≠ pid) l.

Definition withPlayers (f : list (string * SocketRef) → list (string * SocketRef))
  (x : Session) : Session :=
  mkSession (code x) (dm x) (f (players x)).

(** ** Helpers of the source *)

(** [Number.prototype.toString(36)] on a non-negative integer. *)
Definition digit36 (d : N) : ascii :=
  ascii_of_N (if (d <? 10)%N then 48 + d else 87 + d).

Fixpoint digits36 (fuel : nat) (n : N) : list ascii :=
  match fuel with
  | O => []
  | S fuel' =>
      digit36 (n mod 36) ::
      (if (n / 36 =? 0)%N then [] else digits36 fuel' (n / 36))
  end.

Definition toString36 (n : N) : list ascii :=
  rev (digits36 (S (N.size_nat n)) n).

(** The same on an integer: a minus sign before the digits. *)
Definition toString36Z (z : Z) : list ascii :=
  match z with
  | Zneg p => "-"%char :: toString36 (Npos p)
  | _ => toString36 (Z.to_N z)
  end.

(** [createClientId]: [clientCounter += 1], then
    [`c-${Date.now().toString(36)}-${clientCounter.toString(36)}`].
    [now] is the value [Date.now()] returns at the call.  The counter
    is a natural number: the JavaScript number that holds it is exact
    for the first 2^53 increments. *)
Definition clientId (now : Z) (counter : N) : string :=
  string_of_list_ascii
    ("c"%char :: "-"%char :: toString36Z now ++ "-"%char :: toString36 counter).

Definition createClientId (now : Z) (st : State) : string * State :=
  let counter := (clientCounter st + 1)%N in
  (clientId now counter,
   mkState (sockets st) (clients st) (sessions st) counter (outbox st)).

(** [String.prototype.trim] and [toUpperCase], on ASCII text: the white
    space removed is tab, line feed, vertical tab, form feed, carriage
    return and space; the letters a-z are mapped to A-Z. *)
Definition isSpace (c : ascii) : bool :=
  let n := N_of_ascii c in ((9 <=? n) && (n <=? 13) || (n =? 32))%N.

Fixpoint trimStart (l : list ascii) : list ascii :=
  match l with
  | c :: l' => if isSpace c then trimStart l' else l
  | [] => []
  end.

Definition trim (s : string) : string :=
  string_of_list_ascii
    (rev (trimStart (rev (trimStart (list_ascii_of_string s))))).

Definition upperChar (c : ascii) : ascii :=
  let n := N_of_ascii c in
  if ((97 <=? n) && (n <=? 122))%N then ascii_of_N (n - 32) else c.

Definition toUpperCase (s : string) : string :=
  string_of_list_ascii (map upperChar (list_ascii_of_string s)).

(** [normalizeCode(value)]; a missing property is [None]. *)
Definition normalizeCode (value : option json) : string :=
  match value with
  | Some (JStr s) => toUpperCase (trim s)
  | _ => ""
  end.

(** [safeSend(socket, payload)]: nothing is written unless the socket is
    OPEN, and [socket.send] on an OPEN socket is taken to succeed.  The
    boolean it returns is discarded by every caller, so the model keeps
    the state only. *)
Definition safeSend (s : SocketRef) (payload : Frame) (st : State) : State :=
  if is_open st s
  then mkState (sockets st) (clients st) (sessions st) (clientCounter st)
               (outbox st ++ [(s, payload)])
  else st.

(** ** Session lifecycle *)

(** The body of the [forEach] in [endSession]: notify, close, unbind. *)
Definition endSession_player (reason : string) (st : State)
  (entry : string * SocketRef) : State :=
  let playerSocket := entry.2 in
  setInfo playerSocket None
    (socketClose playerSocket
       (safeSend playerSocket (SessionClosed (Some reason)) st)).

(** [endSession(session, reason)].  The session leaves the table first;
    the final [players.clear()] empties an object that nothing refers to
    any more. *)
Definition endSession (session : Session) (reason : string) (st : State) : State :=
  foldl (endSession_player reason)
        (setSessions (delete (code session) (sessions st)) st)
        (players session).

(** [reason || 'The DM disconnected.'] *)
Definition reasonOr (reason : option string) (dflt : string) : string :=
  match reason with
  | Some r => if decide (r = "") then dflt else r
  | None => dflt
  end.

(** The role-dependent part of [detachClient]. *)
Definition detachRole (s : SocketRef) (i : ClientInfo) (reason : option string)
  (st : State) : State :=
  match i with
  | RoleDm c =>
      match sessions st !! c with
      | Some session =>
          if decide (dm session = s)
          then endSession session (reasonOr reason "The DM disconnected.") st
          else st
      | None => st
      end
  | RolePlayer c pid =>
      match sessions st !! c with
      | Some session =>
          if decide (players_get pid (players session) = Some s) then
            let st1 :=
              setSessions (<[c := withPlayers (players_delete pid) session]> (sessions st)) st in
            if is_open st1 (dm session)
            then safeSend (dm session) (PlayerLeft pid) st1
            else st1
          else st
      | None => st
      end
  end.

(** [detachClient(socket, { reason, silent })] *)
Definition detachClient (s : SocketRef) (reason : option string) (silent : bool)
  (st : State) : State :=
  match info st s with
  | None => st
  | Some i =>
      let st1 := setInfo s None (detachRole s i reason st) in
      if negb silent && is_open st1 s then socketClose s st1 else st1
  end.

(** ** Reading a decoded message *)

Fixpoint assoc (k : string) (l : list (string * json)) : option json :=
  match l with
  | [] => None
  | (k', v) :: l' => if decide (k' = k) then Some v else assoc k l'
  end.

(** [message.k]: the property of a parsed object, [undefined] ([None])
    when it is missing or the value has no such property. *)
Definition field (k : string) (message : json) : option json :=
  match message with
  | JObj fields => assoc k fields
  | _ => None
  end.

Inductive TypeOf := TUndefined | TObject | TBoolean | TNumber | TString.

Definition typeof (v : option json) : TypeOf :=
  match v with
  | None => TUndefined
  | Some JNull | Some (JArr _) | Some (JObj _) => TObject
  | Some (JBool _) => TBoolean
  | Some (JNum _ _) => TNumber
  | Some (JStr _) => TString
  end.

Definition isObject (v : option json) : bool :=
  match typeof v with TObject => true | _ => false end.

(** Truthiness of a value in a condition. *)
Definition truthy (v : option json) : bool :=
  match v with
  | None | Some JNull => false
  | Some (JBool b) => b
  | Some (JNum m _) => negb (m =? 0)%Z
  | Some (JStr s) => negb (bool_decide (s = ""))
  | Some (JArr _) | Some (JObj _) => true
  end.

(** ** Message handlers *)

Definition isDm (i : option ClientInfo) : bool :=
  match i with Some (RoleDm _) => true | _ => false end.

Definition msgInvalidCreate := "Invalid session code. Refresh the page and try again.".
Definition msgAlreadyHosting := "You are already hosting a session.".
Definition msgSessionExists := "A session with that code already exists.".
Definition msgInvalidJoin := "Enter a valid session code from your DM.".
Definition msgSessionNotFound := "Session not found. Ask your DM for a new code.".

Definition handleCreateSession (s : SocketRef) (message : json) (st : State) : State :=
  let code := normalizeCode (field "code" message) in
  if decide (code = "") then safeSend s (SessionError msgInvalidCreate) st
  else if isDm (info st s) then safeSend s (SessionError msgAlreadyHosting) st
  else if decide (is_Some (sessions st !! code))
       then safeSend s (SessionError msgSessionExists) st
  else
    let session := mkSession code s [] in
    safeSend s (SessionCreated code)
      (setInfo s (Some (RoleDm code))
         (setSessions (<[code := session]> (sessions st)) st)).

(** [handleJoinSession].  [session] is fetched before [detachClient]
    runs and names the same object afterwards: when it is still in the
    table, [players.set] shows there ([alter]); when [detachClient] has
    just ended it (the socket was its host), the entry is written to an
    object the table has dropped, and [session.dm] is still the socket
    the session was created with. *)
Definition handleJoinSession (s : SocketRef) (now : Z) (message : json)
  (st : State) : State :=
  let code := normalizeCode (field "code" message) in
  if decide (code = "") then safeSend s (SessionError msgInvalidJoin) st
  else
    match sessions st !! code with
    | None => safeSend s (SessionError msgSessionNotFound) st
    | Some session =>
        if negb (is_open st (dm session))
        then safeSend s (SessionError msgSessionNotFound) st
        else
          let st1 := match info st s with
                     | Some _ => detachClient s None true st
                     | None => st
                     end in
          let '(playerId, st2) := createClientId now st1 in
          let st3 :=
            setSessions (alter (withPlayers (players_set playerId s)) code (sessions st2)) st2 in
          let st4 := setInfo s (Some (RolePlayer code playerId)) st3 in
          safeSend (dm session) (PlayerJoined playerId)
            (safeSend s (SessionJoined code playerId) st4)
    end.

(** The branch of [relayFromPlayer] taken when the session is gone or
    its host is not open. *)
Definition sessionUnavailable (s : SocketRef) (st : State) : State :=
  detachClient s (Some "Session unavailable.") false
    (safeSend s (SessionClosed None) st).

Definition relayFromPlayer (s : SocketRef) (message : json) (st : State) : State :=
  match info st s with
  | Some (RolePlayer c pid) =>
      match sessions st !! c with
      | Some session =>
          if negb (is_open st (dm session)) then sessionUnavailable s st
          else
            match field "payload" message with
            | Some payload =>
                if negb (isObject (Some payload)) then st
                else safeSend (dm session) (Relay (Some pid) payload) st
            | None => st
            end
      | None => sessionUnavailable s st
      end
  | _ => st
  end.

(** [typeof message.playerId === 'string' && message.playerId] *)
Definition targetId (v : option json) : option string :=
  match v with
  | Some (JStr playerId) => if truthy v then Some playerId else None
  | _ => None
  end.

(** [session.players.forEach(p => safeSend(p, { type: 'relay', payload }))] *)
Definition broadcast (payload : json) (session : Session) (st : State) : State :=
  foldl (λ acc entry, safeSend entry.2 (Relay None payload) acc) st (players session).

Definition relayFromDm (s : SocketRef) (message : json) (st : State) : State :=
  match info st s with
  | Some (RoleDm c) =>
      match sessions st !! c with
      | None => st
      | Some session =>
          match field "payload" message with
          | Some payload =>
              if negb (truthy (Some payload)) || negb (isObject (Some payload)) then st
              else
                match targetId (field "playerId" message) with
                | Some playerId =>
                    match players_get playerId (players session) with
                    | Some target => safeSend target (Relay None payload) st
                    | None => st
                    end
                | None => broadcast payload session st
                end
          | None => st
          end
      end
  | _ => st
  end.

Definition handleCloseSession (s : SocketRef) (st : State) : State :=
  match info st s with
  | Some (RoleDm c) =>
      match sessions st !! c with
      | Some session =>
          if decide (dm session = s)
          then setInfo s None (endSession session "The DM closed the session." st)
          else st
      | None => st
      end
  | _ => st
  end.

(** ** The router and the transport events *)

(** The [message] callback.  [raw] is [None] when [JSON.parse] throws. *)
Definition onMessage (s : SocketRef) (now : Z) (raw : option json) (st : State) : State :=
  match raw with
  | None => st
  | Some message =>
      if negb (truthy raw) || negb (isObject raw) then st
      else
        match field "type" message with
        | Some (JStr t) =>
            if decide (t = "create-session") then handleCreateSession s message st
            else if decide (t = "join-session") then handleJoinSession s now message st
            else if decide (t = "relay") then
              if isDm (info st s) then relayFromDm s message st
              else relayFromPlayer s message st
            else if decide (t = "close-session") then handleCloseSession s st
            else st
        | _ => st
        end
  end.

(** One turn of the [forEach] in the [heartbeatInterval] timer.  Pings
    are control frames below [safeSend] and leave no trace in the
    outbox. *)
Definition heartbeat_turn (st : State) (s : SocketRef) : State :=
  if negb (isAlive (sock st s))
  then terminate s (detachClient s (Some "Connection timed out.") true st)
  else setAlive s false st.

Definition heartbeatInterval (st : State) : State :=
  foldl heartbeat_turn st (clients st).

(** What the event loop runs, one callback at a time. *)
Inductive Event :=
  | EvConnection (s : SocketRef)
  | EvMessage (s : SocketRef) (now : Z) (raw : option json)
  | EvPong (s : SocketRef)
  | EvClosing (s : SocketRef)
  | EvClose (s : SocketRef)
  | EvHeartbeat.

Definition connected (st : State) (s : SocketRef) : bool :=
  bool_decide (s ∈ clients st).

(** [wss.on('connection')] for a new socket object [s]. *)
Definition onConnection (s : SocketRef) (st : State) : State :=
  mkState (<[s := mkSocket OPEN true None]> (sockets st)) (clients st ++ [s])
          (sessions st) (clientCounter st) (outbox st).

(** The [close] event: the socket is CLOSED and leaves [wss.clients],
    and the callback runs [detachClient(socket, { silent: true })]. *)
Definition onClose (s : SocketRef) (st : State) : State :=
  let st1 := setReady s CLOSED st in
  detachClient s None true
    (mkState (sockets st1) (filter (λ c, c ≠ s) (clients st1)) (sessions st1)
             (clientCounter st1) (outbox st1)).

(** Events reach only sockets the server holds; a new connection is a
    new object.  [EvClosing] is the peer starting the closing handshake. *)
Definition step (ev : Event) (st : State) : State :=
  match ev with
  | EvConnection s =>
      if decide (sockets st !! s = None) then onConnection s st else st
  | EvMessage s now raw =>
      if connected st s then onMessage s now raw st else st
  | EvPong s => if connected st s then setAlive s true st else st
  | EvClosing s => if connected st s then socketClose s st else st
  | EvClose s => if connected st s then onClose s st else st
  | EvHeartbeat => heartbeatInterval st
  end.

Definition run (evs : list Event) (st : State) : State :=
  foldl (λ acc ev, step ev acc) st evs.

Inductive reachable : State → Prop :=
  | reachable_initial : reachable initial
  | reachable_step ev st : reachable st → reachable (step ev st).

(** A payload that a host relay accepts: [payload && typeof payload === 'object']. *)
Definition structured (v : option json) : bool := truthy v && isObject v.

(** ** Predicates on states *)

(** Operations that only take away: teardown never binds a socket,
    never registers a session or a player, never reopens a socket and
    never touches the counter. *)
Definition shrinks (st st' : State) : Prop :=
  (∀ s, info st' s = info st s ∨ info st' s = None)
  ∧ (∀ c x', sessions st' !! c = Some x' →
       ∃ x, sessions st !! c = Some x ∧ code x' = code x ∧ dm x' = dm x
            ∧ players x' ⊆ players x)
  ∧ clientCounter st' = clientCounter st
  ∧ (∀ s, is_open st' s = true → is_open st s = true).

(** Every session is stored under its own code, which is not empty. *)
Definition keyed (st : State) : Prop :=
  ∀ c x, sessions st !! c = Some x → code x = c ∧ c ≠ "".

(** A socket bound as host of a code is the host of the session
    registered under that code. *)
Definition hosts_registered (st : State) : Prop :=
  ∀ s c, info st s = Some (RoleDm c) →
    ∃ x, sessions st !! c = Some x ∧ dm x = s.

(** [p] was returned by [createClientId] no later than counter value [n]. *)
Definition issued (n : N) (p : string) : Prop :=
  ∃ now k, p = clientId now k ∧ (k ≤ n)%N.

(** Every participant id held by a binding or by a registered session
    has been issued. *)
Definition ids_issued (st : State) : Prop :=
  (∀ s c p, info st s = Some (RolePlayer c p) → issued (clientCounter st) p)
  ∧ (∀ c x p t, sessions st !! c = Some x → (p, t) ∈ players x →
       issued (clientCounter st) p).

Record Inv (st : State) : Prop := mkInv {
  inv_keyed : keyed st;
  inv_hosts : hosts_registered st;
  inv_ids : ids_issued st
}.

(** No session loses its place or changes its host. *)
Definition table_kept (st st' : State) : Prop :=
  ∀ c x, sessions st !! c = Some x →
    ∃ x', sessions st' !! c = Some x' ∧ dm x' = dm x.

(** Fuel [f] suffices for every number below [2 ^ f]. *)
Definition fits (f : nat) (n : N) : Prop := (Z.of_N n < 2 ^ Z.of_nat f)%Z.

(** [normalizeCode] on the characters of a string. *)
Definition normalizeChars (l : list ascii) : list ascii :=
  map upperChar (rev (trimStart (rev (trimStart l)))).

(** ASCII white space only. *)
Definition blank (l : list ascii) : Prop := Forall (λ c, isSpace c = true) l.

(** ASCII characters only: the text on which [trim] and [toUpperCase]
    are modelled exactly. *)
Definition asciiText (l : list ascii) : Prop :=
  Forall (λ c, (N_of_ascii c < 128)%N) l.

(** Operations that leave [wss.clients] and every liveness flag alone
    and drop no socket object: all the message handlers and the
    disconnect path. *)
Definition keeps (st st' : State) : Prop :=
  clients st' = clients st
  ∧ (∀ s, isAlive (sock st' s) = isAlive (sock st s))
  ∧ (∀ s, is_Some (sockets st !! s) → is_Some (sockets st' !! s)).

(** [wss.clients] is a set of socket objects the server holds. *)
Definition clients_wf (st : State) : Prop :=
  NoDup (clients st) ∧ ∀ s, s ∈ clients st → is_Some (sockets st !! s).

(** The [type] tag the router dispatches on, when the frame has one. *)
Definition messageType (raw : option json) : option string :=
  match raw with
  | Some (JObj fields) =>
      match assoc "type" fields with
      | Some (JStr t) => Some t
      | _ => None
      end
  | _ => None
  end.

(** Every registered code is its own normal form. *)
Definition codes_normal (st : State) : Prop :=
  ∀ c x, sessions st !! c = Some x → normalizeCode (Some (JStr c)) = c.

(** A participant id belongs to one socket and one session: two bindings
    with the same id are the same socket, two entries with the same id
    are the same entry of the same session, and a binding and an entry
    with the same id agree on the socket and on the session. *)
Definition ids_unique (st : State) : Prop :=
  (∀ s t c c' p, info st s = Some (RolePlayer c p) →
     info st t = Some (RolePlayer c' p) → s = t)
  ∧ (∀ c x t c' x' t' p, sessions st !! c = Some x → (p, t) ∈ players x →
       sessions st !! c' = Some x' → (p, t') ∈ players x' → c = c' ∧ t = t')
  ∧ (∀ s c p c' x' t, info st s = Some (RolePlayer c p) →
       sessions st !! c' = Some x' → (p, t) ∈ players x' → t = s ∧ c' = c).

(** ** Scenarios *)

Definition msg (type : string) (fields : list (string * json)) : option json :=
  Some (JObj (("type", JStr type) :: fields)).

(** A host (socket 0) creates ABC and a participant (socket 1) joins. *)
Definition hosted_session : list Event :=
  [ EvConnection 0; EvConnection 1;
    EvMessage 0 1000 (msg "create-session" [("code", JStr "ABC")]);
    EvMessage 1 1001 (msg "join-session" [("code", JStr " abc ")]) ].

(** The same, and then the host's peer starts closing its connection. *)
Definition host_closing : list Event := hosted_session ++ [EvClosing 0].

(** A participant (socket 1) of ABC creates XYZ, then neither socket
    answers a probe: two heartbeats and the two close events follow. *)
Definition participant_hosts_then_timeout : list Event :=
  hosted_session ++
  [ EvMessage 1 1002 (msg "create-session" [("code", JStr "XYZ")]);
    EvHeartbeat; EvHeartbeat; EvClose 0; EvClose 1 ].

(** The host of ABC (socket 0) joins its own session: the session is
    ended and socket 0 is left bound as participant of a code that is
    not registered. *)
Definition own_session_joined : list Event :=
  hosted_session ++ [ EvMessage 0 1002 (msg "join-session" [("code", JStr "ABC")]) ].

(** The host of ABC closes its session, which closes socket 1; before
    the peer has acknowledged, two frames already under way from socket
    1 arrive: a create-session for XYZ and a close-session. *)
Definition closing_socket_hosts : list Event :=
  hosted_session ++
  [ EvMessage 0 1002 (msg "close-session" []);
    EvMessage 1 1003 (msg "create-session" [("code", JStr "XYZ")]) ].

(** * Properties *)

(** ** Effect of the primitive operations *)

Section primitives.
Implicit Types (st : State) (s t : SocketRef) (f : Socket → Socket).

Lemma sock_updSock s f st t :
  sock (updSock s f st) t = if decide (s = t) then f (sock st s) else sock st t.
Proof.
  unfold sock, updSock; simpl. case_decide as E.
  - subst. by rewrite lookup_insert_eq.
  - by rewrite lookup_insert_ne.
Qed.

Lemma info_setInfo s i st t :
  info (setInfo s i st) t = if decide (s = t) then i else info st t.
Proof. unfold info, setInfo. rewrite sock_updSock. by case_decide. Qed.

Lemma info_socketClose s st t : info (socketClose s st) t = info st t.
Proof. unfold info, socketClose. rewrite sock_updSock. case_decide; by subst. Qed.

Lemma info_terminate s st t : info (terminate s st) t = info st t.
Proof. unfold info, terminate. rewrite sock_updSock. case_decide; by subst. Qed.

Lemma info_setAlive s b st t : info (setAlive s b st) t = info st t.
Proof. unfold info, setAlive. rewrite sock_updSock. case_decide; by subst. Qed.

Lemma info_setReady s r st t : info (setReady s r st) t = info st t.
Proof. unfold info, setReady. rewrite sock_updSock. case_decide; by subst. Qed.

Lemma sock_safeSend s fr st t : sock (safeSend s fr st) t = sock st t.
Proof. unfold safeSend. by case (is_open st s). Qed.

Lemma info_safeSend s fr st t : info (safeSend s fr st) t = info st t.
Proof. unfold info. by rewrite sock_safeSend. Qed.

Lemma is_open_safeSend s fr st t : is_open (safeSend s fr st) t = is_open st t.
Proof. unfold is_open. by rewrite sock_safeSend. Qed.

Lemma sessions_safeSend s fr st : sessions (safeSend s fr st) = sessions st.
Proof. unfold safeSend. by case (is_open st s). Qed.

Lemma clientCounter_safeSend s fr st : clientCounter (safeSend s fr st) = clientCounter st.
Proof. unfold safeSend. by case (is_open st s). Qed.

Lemma clients_safeSend s fr st : clients (safeSend s fr st) = clients st.
Proof. unfold safeSend. by case (is_open st s). Qed.

Lemma outbox_safeSend s fr st :
  outbox (safeSend s fr st) = outbox st ++ (if is_open st s then [(s, fr)] else []).
Proof. unfold safeSend. case (is_open st s); simpl; [done | by rewrite app_nil_r]. Qed.

Lemma is_open_setInfo s i st t : is_open (setInfo s i st) t = is_open st t.
Proof. unfold is_open, setInfo. rewrite sock_updSock. case_decide; by subst. Qed.

Lemma is_open_setAlive s b st t : is_open (setAlive s b st) t = is_open st t.
Proof. unfold is_open, setAlive. rewrite sock_updSock. case_decide; by subst. Qed.

Lemma is_open_socketClose s st t :
  is_open (socketClose s st) t = if decide (s = t) then false else is_open st t.
Proof.
  unfold is_open, socketClose. rewrite sock_updSock.
  case_decide; [subst; simpl; by destruct (readyState (sock st t)) | done].
Qed.

Lemma is_open_terminate s st t :
  is_open (terminate s st) t = if decide (s = t) then false else is_open st t.
Proof.
  unfold is_open, terminate. rewrite sock_updSock.
  case_decide; [subst; simpl; by destruct (readyState (sock st t)) | done].
Qed.

Lemma is_open_setReady_closed s st t :
  is_open (setReady s CLOSED st) t = if decide (s = t) then false else is_open st t.
Proof. unfold is_open, setReady. rewrite sock_updSock. by case_decide. Qed.

Lemma sock_setSessions m st t : sock (setSessions m st) t = sock st t.
Proof. done. Qed.

Lemma info_setSessions m st t : info (setSessions m st) t = info st t.
Proof. done. Qed.

Lemma is_open_setSessions m st t : is_open (setSessions m st) t = is_open st t.
Proof. done. Qed.
End primitives.

Create HintDb relay.
#[local] Hint Rewrite info_setInfo info_socketClose info_terminate info_setAlive
  info_setReady info_safeSend info_setSessions sessions_safeSend
  clientCounter_safeSend clients_safeSend is_open_safeSend is_open_setInfo
  is_open_setAlive is_open_socketClose is_open_terminate is_open_setReady_closed
  is_open_setSessions : relay.

(** ** Effect of [endSession] *)

Section endSession_effect.
Implicit Types (st : State) (l : list (string * SocketRef)).

Lemma endSession_player_sessions r st e :
  sessions (endSession_player r st e) = sessions st.
Proof. unfold endSession_player; simpl. by rewrite sessions_safeSend. Qed.

Lemma endSession_player_counter r st e :
  clientCounter (endSession_player r st e) = clientCounter st.
Proof. unfold endSession_player; simpl. by rewrite clientCounter_safeSend. Qed.

Lemma endSession_player_clients r st e :
  clients (endSession_player r st e) = clients st.
Proof. unfold endSession_player; simpl. by rewrite clients_safeSend. Qed.

Lemma endSession_player_info r st e t :
  info (endSession_player r st e) t = if decide (e.2 = t) then None else info st t.
Proof. unfold endSession_player. by autorewrite with relay. Qed.

Lemma endSession_player_open r st e t :
  is_open (endSession_player r st e) t = if decide (e.2 = t) then false else is_open st t.
Proof. unfold endSession_player. by autorewrite with relay. Qed.

Lemma endSession_player_outbox r st e :
  outbox (endSession_player r st e) =
  outbox st ++ (if is_open st e.2 then [(e.2, SessionClosed (Some r))] else []).
Proof. unfold endSession_player; simpl. by rewrite outbox_safeSend. Qed.

Lemma endSession_fold_sessions r l st :
  sessions (foldl (endSession_player r) st l) = sessions st.
Proof.
  revert st; induction l as [|e l IH]; intros st; simpl; [done|].
  by rewrite IH, endSession_player_sessions.
Qed.

Lemma endSession_fold_counter r l st :
  clientCounter (foldl (endSession_player r) st l) = clientCounter st.
Proof.
  revert st; induction l as [|e l IH]; intros st; simpl; [done|].
  by rewrite IH, endSession_player_counter.
Qed.

Lemma endSession_fold_clients r l st :
  clients (foldl (endSession_player r) st l) = clients st.
Proof.
  revert st; induction l as [|e l IH]; intros st; simpl; [done|].
  by rewrite IH, endSession_player_clients.
Qed.

Lemma endSession_fold_info r l st t :
  info (foldl (endSession_player r) st l) t =
  if decide (t ∈ l.*2) then None else info st t.
Proof.
  revert st; induction l as [|e l IH]; intros st.
  - rewrite decide_False by set_solver. done.
  - rewrite fmap_cons. cbn [foldl]. rewrite IH, endSession_player_info.
    destruct (decide (e.2 = t)) as [<-|Hne].
    + rewrite (decide_True (P := _ ∈ _ :: _)) by (apply elem_of_cons; by left).
      by case_decide.
    + destruct (decide (t ∈ l.*2)) as [Hin|Hnin].
      * by rewrite decide_True by (apply elem_of_cons; by right).
      * rewrite decide_False; [done|]. by intros [?|?]%elem_of_cons.
Qed.

Lemma endSession_fold_open r l st t :
  is_open (foldl (endSession_player r) st l) t =
  if decide (t ∈ l.*2) then false else is_open st t.
Proof.
  revert st; induction l as [|e l IH]; intros st.
  - rewrite decide_False by set_solver. done.
  - rewrite fmap_cons. cbn [foldl]. rewrite IH, endSession_player_open.
    destruct (decide (e.2 = t)) as [<-|Hne].
    + rewrite (decide_True (P := _ ∈ _ :: _)) by (apply elem_of_cons; by left).
      by case_decide.
    + destruct (decide (t ∈ l.*2)) as [Hin|Hnin].
      * by rewrite decide_True by (apply elem_of_cons; by right).
      * rewrite decide_False; [done|]. by intros [?|?]%elem_of_cons.
Qed.

(** The frames an ended session writes: one [session-closed] for each
    open socket among its players, and never two to the same socket. *)
Lemma endSession_fold_outbox r l st :
  ∃ new, outbox (foldl (endSession_player r) st l) = outbox st ++ new
    ∧ NoDup new
    ∧ ∀ e, e ∈ new ↔
        ∃ t, e = (t, SessionClosed (Some r)) ∧ t ∈ l.*2 ∧ is_open st t = true.
Proof.
  revert st; induction l as [|[pid p] l IH]; intros st; simpl.
  - exists []. rewrite app_nil_r. split; [done|]. split; [constructor|].
    intros e; split; [by intros ?%elem_of_nil | intros (t & _ & ?%elem_of_nil & _); done].
  - destruct (IH (endSession_player r st (pid, p))) as (new & Hout & Hnd & Hin).
    rewrite Hout, endSession_player_outbox; simpl.
    assert (Hopen : ∀ t, is_open (endSession_player r st (pid, p)) t = true
              ↔ t ≠ p ∧ is_open st t = true).
    { intros t. rewrite endSession_player_open; simpl. case_decide; naive_solver. }
    destruct (is_open st p) eqn:Hp.
    + exists ((p, SessionClosed (Some r)) :: new). rewrite <- app_assoc; simpl.
      split; [done|]. split.
      * constructor; [|done]. intros (t & [= <-] & _ & Ht)%Hin.
        apply Hopen in Ht. naive_solver.
      * intros e. rewrite elem_of_cons, Hin. setoid_rewrite Hopen.
        setoid_rewrite elem_of_cons. split.
        -- intros [-> | (t & -> & ? & ? & ?)]; eauto 10.
        -- intros (t & -> & [-> | ?] & ?); [by left|].
           destruct (decide (t = p)) as [->|]; [by left | right; eauto 10].
    + exists new. rewrite app_nil_r. split; [done|]. split; [done|].
      intros e. rewrite Hin. setoid_rewrite Hopen. setoid_rewrite elem_of_cons.
      split.
      * intros (t & -> & ? & ? & ?); eauto 10.
      * intros (t & -> & [-> | ?] & ?); [congruence|].
        exists t. repeat split; try done. intros ->; congruence.
Qed.

Lemma endSession_sessions x r st :
  sessions (endSession x r st) = delete (code x) (sessions st).
Proof. unfold endSession. by rewrite endSession_fold_sessions. Qed.

Lemma endSession_counter x r st :
  clientCounter (endSession x r st) = clientCounter st.
Proof. unfold endSession. by rewrite endSession_fold_counter. Qed.

Lemma endSession_clients x r st : clients (endSession x r st) = clients st.
Proof. unfold endSession. by rewrite endSession_fold_clients. Qed.

Lemma endSession_info x r st t :
  info (endSession x r st) t = if decide (t ∈ (players x).*2) then None else info st t.
Proof. unfold endSession. by rewrite endSession_fold_info. Qed.

Lemma endSession_open x r st t :
  is_open (endSession x r st) t =
  if decide (t ∈ (players x).*2) then false else is_open st t.
Proof. unfold endSession. by rewrite endSession_fold_open. Qed.

Lemma endSession_outbox x r st :
  ∃ new, outbox (endSession x r st) = outbox st ++ new
    ∧ NoDup new
    ∧ ∀ e, e ∈ new ↔
        ∃ t, e = (t, SessionClosed (Some r)) ∧ t ∈ (players x).*2 ∧ is_open st t = true.
Proof.
  unfold endSession.
  apply (endSession_fold_outbox r (players x)
           (setSessions (delete (code x) (sessions st)) st)).
Qed.
End endSession_effect.

Section shrinking.
Implicit Types (st : State) (s t : SocketRef).

Lemma shrinks_refl st : shrinks st st.
Proof. repeat split; eauto. Qed.

Lemma shrinks_trans st1 st2 st3 :
  shrinks st1 st2 → shrinks st2 st3 → shrinks st1 st3.
Proof.
  intros (Hi1 & Hs1 & Hc1 & Ho1) (Hi2 & Hs2 & Hc2 & Ho2). repeat split.
  - intros s. destruct (Hi2 s) as [E|E]; [rewrite E; apply Hi1 | by right].
  - intros c x3 L3. destruct (Hs2 _ _ L3) as (x2 & L2 & ? & ? & ?).
    destruct (Hs1 _ _ L2) as (x1 & L1 & ? & ? & ?).
    exists x1. repeat split; [done | congruence | congruence | set_solver].
  - congruence.
  - eauto.
Qed.

(** A change that keeps the table and the counter and, on every
    socket, keeps or clears the binding and does not open it. *)
Lemma shrinks_sockets st st' :
  sessions st' = sessions st → clientCounter st' = clientCounter st →
  (∀ s, info st' s = info st s ∨ info st' s = None) →
  (∀ s, is_open st' s = true → is_open st s = true) →
  shrinks st st'.
Proof.
  intros Hs Hc Hi Ho. repeat split; try done.
  intros c x'. rewrite Hs. intros ?; exists x'; eauto.
Qed.

Lemma shrinks_safeSend s fr st : shrinks st (safeSend s fr st).
Proof.
  apply shrinks_sockets; autorewrite with relay; try done.
  - intros t; left; by autorewrite with relay.
  - intros t; by autorewrite with relay.
Qed.

Lemma shrinks_socketClose s st : shrinks st (socketClose s st).
Proof.
  apply shrinks_sockets; try done.
  - intros t; left; by autorewrite with relay.
  - intros t; autorewrite with relay. by case_decide.
Qed.

Lemma shrinks_terminate s st : shrinks st (terminate s st).
Proof.
  apply shrinks_sockets; try done.
  - intros t; left; by autorewrite with relay.
  - intros t; autorewrite with relay. by case_decide.
Qed.

Lemma shrinks_setAlive s b st : shrinks st (setAlive s b st).
Proof.
  apply shrinks_sockets; try done.
  - intros t; left; by autorewrite with relay.
  - intros t; by autorewrite with relay.
Qed.

Lemma shrinks_unbind s st : shrinks st (setInfo s None st).
Proof.
  apply shrinks_sockets; try done.
  - intros t; autorewrite with relay. case_decide; eauto.
  - intros t; by autorewrite with relay.
Qed.

Lemma shrinks_endSession x r st : shrinks st (endSession x r st).
Proof.
  repeat split.
  - intros t. rewrite endSession_info. case_decide; eauto.
  - intros c x'. rewrite endSession_sessions.
    intros [_ H]%lookup_delete_Some. exists x'; eauto.
  - apply endSession_counter.
  - intros t. rewrite endSession_open. by case_decide.
Qed.

Lemma players_delete_subseteq pid (l : list (string * SocketRef)) :
  players_delete pid l ⊆ l.
Proof. intros e [_ ?]%list_elem_of_filter. done. Qed.

Lemma shrinks_removePlayer c pid x st :
  sessions st !! c = Some x →
  shrinks st (setSessions (<[c := withPlayers (players_delete pid) x]> (sessions st)) st).
Proof.
  intros Hx. repeat split; eauto.
  intros c' x'; simpl. rewrite lookup_insert. case_decide as E.
  - intros [= <-]; subst c'. exists x; simpl.
    repeat split; auto using players_delete_subseteq.
  - intros ?; exists x'; eauto.
Qed.

Lemma shrinks_detachRole s i r st : shrinks st (detachRole s i r st).
Proof.
  destruct i as [c | c pid]; simpl.
  - destruct (sessions st !! c) as [x|]; [|apply shrinks_refl].
    case_decide; [apply shrinks_endSession | apply shrinks_refl].
  - destruct (sessions st !! c) as [x|] eqn:Hx; [|apply shrinks_refl].
    case_decide; [|apply shrinks_refl].
    pose proof (shrinks_removePlayer c pid x st Hx) as H1.
    case (is_open _ _); [|done].
    eapply shrinks_trans; [exact H1 | apply shrinks_safeSend].
Qed.

Lemma shrinks_detachClient s r silent st : shrinks st (detachClient s r silent st).
Proof.
  unfold detachClient. destruct (info st s) as [i|]; [|apply shrinks_refl].
  assert (shrinks st (setInfo s None (detachRole s i r st))) as H1.
  { eapply shrinks_trans; [apply shrinks_detachRole | apply shrinks_unbind]. }
  case (negb silent && _); [|done].
  eapply shrinks_trans; [exact H1 | apply shrinks_socketClose].
Qed.

Lemma shrinks_heartbeat_turn st s : shrinks st (heartbeat_turn st s).
Proof.
  unfold heartbeat_turn. case (negb _).
  - eapply shrinks_trans; [apply shrinks_detachClient | apply shrinks_terminate].
  - apply shrinks_setAlive.
Qed.

Lemma shrinks_heartbeat_fold l st : shrinks st (foldl heartbeat_turn st l).
Proof.
  revert st; induction l as [|s l IH]; intros st; simpl; [apply shrinks_refl|].
  eapply shrinks_trans; [apply shrinks_heartbeat_turn | apply IH].
Qed.
End shrinking.

Section invariants.
Implicit Types (st : State) (s t : SocketRef).

Lemma keyed_shrinks st st' : shrinks st st' → keyed st → keyed st'.
Proof.
  intros (_ & Hs & _) Hk c x' Hx'.
  destruct (Hs _ _ Hx') as (x & Hx & Hc & _). rewrite Hc. eauto.
Qed.

Lemma ids_shrinks st st' : shrinks st st' → ids_issued st → ids_issued st'.
Proof.
  intros (Hi & Hs & Hc & _) [Hb Hp]. unfold ids_issued. rewrite Hc. split.
  - intros s c p E. destruct (Hi s) as [E'|E']; rewrite E' in E; [eauto | done].
  - intros c x' p t Hx' Hin.
    destruct (Hs _ _ Hx') as (x & Hx & _ & _ & Hsub). eauto.
Qed.

Lemma hosts_kept st st' :
  shrinks st st' → table_kept st st' → hosts_registered st → hosts_registered st'.
Proof.
  intros (Hi & _) Hk Hh s c E.
  destruct (Hi s) as [E'|E']; rewrite E' in E; [|done].
  destruct (Hh _ _ E) as (x & Hx & Hd).
  destruct (Hk _ _ Hx) as (x' & Hx' & Hd'). exists x'. split; [done | congruence].
Qed.

Lemma Inv_kept st st' : shrinks st st' → table_kept st st' → Inv st → Inv st'.
Proof.
  intros Hsh Hk [? ? ?].
  split; eauto using keyed_shrinks, ids_shrinks, hosts_kept.
Qed.

Lemma table_kept_refl st : table_kept st st.
Proof. intros c x ?; eauto. Qed.

Lemma table_kept_trans st1 st2 st3 :
  table_kept st1 st2 → table_kept st2 st3 → table_kept st1 st3.
Proof.
  intros H12 H23 c x Hx. destruct (H12 _ _ Hx) as (x2 & Hx2 & ?).
  destruct (H23 _ _ Hx2) as (x3 & Hx3 & ?). exists x3. split; [done | congruence].
Qed.

Lemma table_kept_same st st' : sessions st' = sessions st → table_kept st st'.
Proof. intros E c x ?. rewrite E. eauto. Qed.

Lemma Inv_safeSend s fr st : Inv st → Inv (safeSend s fr st).
Proof.
  apply Inv_kept; [apply shrinks_safeSend|].
  apply table_kept_same, sessions_safeSend.
Qed.

Lemma Inv_socketClose s st : Inv st → Inv (socketClose s st).
Proof. apply Inv_kept; [apply shrinks_socketClose | by apply table_kept_same]. Qed.

Lemma Inv_terminate s st : Inv st → Inv (terminate s st).
Proof. apply Inv_kept; [apply shrinks_terminate | by apply table_kept_same]. Qed.

Lemma Inv_setAlive s b st : Inv st → Inv (setAlive s b st).
Proof. apply Inv_kept; [apply shrinks_setAlive | by apply table_kept_same]. Qed.

Lemma Inv_unbind s st : Inv st → Inv (setInfo s None st).
Proof. apply Inv_kept; [apply shrinks_unbind | by apply table_kept_same]. Qed.

(** Ending the session of a host and clearing the host's binding. *)
Lemma Inv_endSession s c x r st :
  sessions st !! c = Some x → dm x = s →
  Inv st → Inv (setInfo s None (endSession x r st)).
Proof.
  intros Hx Hd HI.
  assert (shrinks st (setInfo s None (endSession x r st))) as Hsh.
  { eapply shrinks_trans; [apply shrinks_endSession | apply shrinks_unbind]. }
  destruct HI as [Hk Hh Hids].
  split; eauto using keyed_shrinks, ids_shrinks.
  intros t c' E. rewrite info_setInfo in E. case_decide as Est; [done|].
  rewrite endSession_info in E. case_decide; [done|].
  destruct (Hh _ _ E) as (x' & Hx' & Hd'). exists x'. split; [|done].
  simpl. rewrite endSession_sessions, (proj1 (Hk _ _ Hx)).
  rewrite lookup_delete_ne; [done|]. intros <-. congruence.
Qed.

Lemma Inv_detachClient s r silent st : Inv st → Inv (detachClient s r silent st).
Proof.
  intros HI. unfold detachClient. destruct (info st s) as [i|] eqn:Hi; [|done].
  assert (Inv (setInfo s None (detachRole s i r st))) as H1.
  { destruct i as [c | c pid]; simpl.
    - destruct (inv_hosts _ HI _ _ Hi) as (x & Hx & Hd). rewrite Hx.
      rewrite decide_True by done. by eapply Inv_endSession.
    - apply Inv_unbind.
      destruct (sessions st !! c) as [x|] eqn:Hx; [|done].
      case_decide; [|done].
      assert (Inv (setSessions (<[c := withPlayers (players_delete pid) x]> (sessions st)) st)) as H2.
      { revert HI. apply Inv_kept; [by apply shrinks_removePlayer|].
        intros c' x' Hx'; simpl. rewrite lookup_insert. case_decide.
        - subst c'. exists (withPlayers (players_delete pid) x). split; [done|].
          simpl. congruence.
        - eauto. }
      case (is_open _ _); [by apply Inv_safeSend | done]. }
  case (negb silent && _); [by apply Inv_socketClose | done].
Qed.
End invariants.

Section handlers_keep_invariants.
Implicit Types (st : State) (s t : SocketRef).

Lemma issued_mono n m p : (n ≤ m)%N → issued n p → issued m p.
Proof. intros ? (now & k & -> & ?). exists now, k. split; [done | lia]. Qed.

Lemma players_set_elem pid s (l : list (string * SocketRef)) e :
  e ∈ players_set pid s l → e ∈ l ∨ e = (pid, s).
Proof.
  induction l as [|[k v] l IH]; simpl.
  - intros ->%list_elem_of_singleton. by right.
  - case_decide as E.
    + subst k. intros [->|?]%elem_of_cons; [by right | left; by right].
    + intros [->|[?|?]%IH]%elem_of_cons; [left; by left | left; by right | by right].
Qed.

Lemma Inv_handleCreateSession s message st :
  Inv st → Inv (handleCreateSession s message st).
Proof.
  intros HI. unfold handleCreateSession.
  set (c := normalizeCode (field "code" message)).
  case_decide; [by apply Inv_safeSend|].
  destruct (isDm (info st s)) eqn:Hdm; [by apply Inv_safeSend|].
  case_decide as Hex; [by apply Inv_safeSend|].
  rename H into Hne. apply Inv_safeSend. destruct HI as [Hk Hh [Hb Hp]].
  assert (sessions st !! c = None) as Hnone.
  { destruct (sessions st !! c) eqn:E; [|done]. destruct Hex; eauto. }
  split.
  - intros c' x; simpl. rewrite lookup_insert. case_decide.
    + intros [= <-]. by subst c'.
    + apply Hk.
  - intros t c' E. rewrite info_setInfo in E. simpl. case_decide.
    + injection E as <-. subst t. exists (mkSession c s []).
      by rewrite lookup_insert_eq.
    + rewrite info_setSessions in E. destruct (Hh _ _ E) as (x & Hx & Hd).
      exists x. split; [|done]. rewrite lookup_insert_ne; [done|]. congruence.
  - split.
    + intros t c' p E. rewrite info_setInfo in E. case_decide; [done|].
      simpl. eapply Hb. exact E.
    + intros c' x p t; simpl. rewrite lookup_insert. case_decide.
      * intros [= <-]. simpl. by intros ?%elem_of_nil.
      * apply Hp.
Qed.

Lemma Inv_join_bind s now c st :
  let '(playerId, st2) := createClientId now st in
  Inv st →
  Inv (setInfo s (Some (RolePlayer c playerId))
         (setSessions (alter (withPlayers (players_set playerId s)) c (sessions st2)) st2)).
Proof.
  simpl. intros [Hk Hh [Hb Hp]]. split.
  - intros c' x; simpl. rewrite lookup_alter. case_decide.
    + subst c'. destruct (sessions st !! c) as [x0|] eqn:E; [|done].
      intros [= <-]. simpl. eauto.
    + apply Hk.
  - intros t c' E. rewrite info_setInfo in E. case_decide; [done|].
    destruct (Hh t c' E) as (x & Hx & Hd). simpl.
    rewrite lookup_alter. case_decide.
    + subst c'. rewrite Hx. by eexists.
    + eauto.
  - assert (issued (clientCounter st + 1) (clientId now (clientCounter st + 1))) as Hnew.
    { eexists _, _. split; [done | lia]. }
    split.
    + intros t c' p E. rewrite info_setInfo in E. simpl. case_decide.
      * by injection E as _ <-.
      * eapply issued_mono; [|eapply Hb; exact E]. lia.
    + intros c' x p t; simpl. rewrite lookup_alter. case_decide.
      * subst c'. destruct (sessions st !! c) as [x0|] eqn:E; [|done].
        intros [= <-]; simpl. intros [?|[= -> ->]]%players_set_elem; [|done].
        eapply issued_mono; [|eapply Hp; eauto]. lia.
      * intros ? ?. eapply issued_mono; [|eapply Hp; eauto]. lia.
Qed.

Lemma Inv_handleJoinSession s now message st :
  Inv st → Inv (handleJoinSession s now message st).
Proof.
  intros HI. unfold handleJoinSession.
  set (c := normalizeCode (field "code" message)).
  case_decide; [by apply Inv_safeSend|].
  destruct (sessions st !! c) as [x|]; [|by apply Inv_safeSend].
  case (negb _); [by apply Inv_safeSend|].
  set (st1 := match info st s with Some _ => detachClient s None true st | None => st end).
  assert (Inv st1) as H1.
  { unfold st1. destruct (info st s); [by apply Inv_detachClient | done]. }
  pose proof (Inv_join_bind s now c st1) as H2.
  destruct (createClientId now st1) as [playerId st2].
  by apply Inv_safeSend, Inv_safeSend, H2.
Qed.

Lemma Inv_relayFromPlayer s message st : Inv st → Inv (relayFromPlayer s message st).
Proof.
  intros HI. unfold relayFromPlayer, sessionUnavailable.
  destruct (info st s) as [[c|c pid]|]; try done.
  destruct (sessions st !! c) as [x|].
  - case (negb _); [by apply Inv_detachClient, Inv_safeSend|].
    destruct (field "payload" message) as [payload|]; [|done].
    case (negb _); [done | by apply Inv_safeSend].
  - by apply Inv_detachClient, Inv_safeSend.
Qed.

Lemma Inv_broadcast payload x st : Inv st → Inv (broadcast payload x st).
Proof.
  unfold broadcast. generalize (players x) as l.
  intros l; revert st; induction l as [|e l IH]; intros st HI; simpl; [done|].
  by apply IH, Inv_safeSend.
Qed.

Lemma Inv_relayFromDm s message st : Inv st → Inv (relayFromDm s message st).
Proof.
  intros HI. unfold relayFromDm.
  destruct (info st s) as [[c|c pid]|]; try done.
  destruct (sessions st !! c) as [x|]; [|done].
  destruct (field "payload" message) as [payload|]; [|done].
  case (_ || _); [done|].
  destruct (targetId _) as [playerId|]; [|by apply Inv_broadcast].
  destruct (players_get _ _); [by apply Inv_safeSend | done].
Qed.

Lemma Inv_handleCloseSession s st : Inv st → Inv (handleCloseSession s st).
Proof.
  intros HI. unfold handleCloseSession.
  destruct (info st s) as [[c|c pid]|]; try done.
  destruct (sessions st !! c) as [x|] eqn:Hx; [|done].
  case_decide; [by eapply Inv_endSession | done].
Qed.

Lemma Inv_onMessage s now raw st : Inv st → Inv (onMessage s now raw st).
Proof.
  intros HI. unfold onMessage. destruct raw as [message|]; [|done].
  case (_ || _); [done|].
  destruct (field "type" message) as [[| | |t| |]|]; try done.
  repeat case_decide;
    auto using Inv_handleCreateSession, Inv_handleJoinSession, Inv_handleCloseSession.
  case (isDm _); auto using Inv_relayFromDm, Inv_relayFromPlayer.
Qed.

Lemma Inv_heartbeat st : Inv st → Inv (heartbeatInterval st).
Proof.
  unfold heartbeatInterval. generalize (clients st) as l.
  intros l; revert st; induction l as [|s l IH]; intros st HI; simpl; [done|].
  apply IH. unfold heartbeat_turn.
  case (negb _); [by apply Inv_terminate, Inv_detachClient | by apply Inv_setAlive].
Qed.

Lemma Inv_onConnection s st : sockets st !! s = None → Inv st → Inv (onConnection s st).
Proof.
  intros Hnew [Hk Hh [Hb Hp]].
  assert (∀ t, info (onConnection s st) t = info st t) as Hinfo.
  { intros t. unfold info, sock, onConnection; simpl.
    destruct (decide (s = t)) as [<-|].
    - by rewrite lookup_insert_eq, Hnew.
    - by rewrite lookup_insert_ne. }
  split; [done | |split].
  - intros t c. rewrite Hinfo. apply Hh.
  - intros t c p. rewrite Hinfo. apply Hb.
  - apply Hp.
Qed.

Lemma Inv_onClose s st : Inv st → Inv (onClose s st).
Proof.
  intros HI. unfold onClose. apply Inv_detachClient.
  revert HI. apply Inv_kept; [|by apply table_kept_same].
  apply shrinks_sockets; try done.
  - intros t. left. unfold info, sock. simpl. fold (sock st s).
    destruct (decide (s = t)) as [<-|].
    + rewrite lookup_insert_eq. done.
    + by rewrite lookup_insert_ne.
  - intros t. unfold is_open, sock. simpl.
    destruct (decide (s = t)) as [<-|].
    + by rewrite lookup_insert_eq.
    + by rewrite lookup_insert_ne.
Qed.

Lemma Inv_initial : Inv initial.
Proof.
  split; [done | done | split]; intros *; try done.
Qed.

Lemma Inv_step ev st : Inv st → Inv (step ev st).
Proof.
  intros HI. destruct ev as [s | s now raw | s | s | s |]; simpl.
  - case_decide; [by apply Inv_onConnection | done].
  - case (connected st s); [by apply Inv_onMessage | done].
  - case (connected st s); [by apply Inv_setAlive | done].
  - case (connected st s); [by apply Inv_socketClose | done].
  - case (connected st s); [by apply Inv_onClose | done].
  - by apply Inv_heartbeat.
Qed.

Lemma reachable_Inv st : reachable st → Inv st.
Proof. induction 1; [apply Inv_initial | by apply Inv_step]. Qed.
End handlers_keep_invariants.

(** ** Participant identifiers *)

Section identifiers.
Local Open Scope N_scope.

Lemma digit36_code d :
  d < 36 → N_of_ascii (digit36 d) = if d <? 10 then 48 + d else 87 + d.
Proof.
  intros Hd. unfold digit36. apply N_ascii_embedding.
  destruct (N.ltb_spec d 10); lia.
Qed.

Lemma digit36_inj a b : a < 36 → b < 36 → digit36 a = digit36 b → a = b.
Proof.
  intros Ha Hb E. apply (f_equal N_of_ascii) in E.
  rewrite !digit36_code in E by done.
  destruct (N.ltb_spec a 10), (N.ltb_spec b 10); lia.
Qed.

Lemma digit36_not_dash d : d < 36 → digit36 d ≠ "-"%char.
Proof.
  intros Hd E. apply (f_equal N_of_ascii) in E.
  rewrite digit36_code in E by done. simpl in E.
  destruct (N.ltb_spec d 10); lia.
Qed.

Lemma fits_size n : fits (S (N.size_nat n)) n.
Proof.
  unfold fits. destruct n as [|p]; simpl N.size_nat.
  - apply Z.pow_pos_nonneg; lia.
  - apply Zpower2_Psize. lia.
Qed.

Lemma fits_div f n : fits (S f) n → fits f (n / 36).
Proof.
  unfold fits. rewrite Nat2Z.inj_succ, Z.pow_succ_r by lia. intros H.
  rewrite N2Z.inj_div. apply Z.div_lt_upper_bound; [lia|].
  assert (0 < 2 ^ Z.of_nat f)%Z by (apply Z.pow_pos_nonneg; lia). simpl Z.of_N. lia.
Qed.

Lemma fits_0 n : fits 0 n → n = 0.
Proof. unfold fits. simpl. lia. Qed.

Lemma digits36_nil f n : digits36 f n = [] → f = O.
Proof. by destruct f. Qed.

Lemma digits36_inj f1 f2 n m :
  fits f1 n → fits f2 m → digits36 f1 n = digits36 f2 m → n = m.
Proof.
  revert f2 n m. induction f1 as [|f1 IH]; intros [|f2] n m Hn Hm; simpl.
  - intros _. apply fits_0 in Hn, Hm. congruence.
  - done.
  - done.
  - intros [= Hd Hr]. apply digit36_inj in Hd; [|by apply N.mod_lt..].
    assert (n / 36 = m / 36) as Hq.
    { destruct (N.eqb_spec (n / 36) 0) as [En|En], (N.eqb_spec (m / 36) 0) as [Em|Em].
      - congruence.
      - symmetry in Hr. apply digits36_nil in Hr. subst f2.
        apply fits_div, fits_0 in Hm. done.
      - apply digits36_nil in Hr. subst f1.
        apply fits_div, fits_0 in Hn. done.
      - eapply IH; eauto using fits_div. }
    rewrite (N.div_mod n 36), (N.div_mod m 36) by done. congruence.
Qed.

Lemma digits36_no_dash f n : "-"%char ∉ digits36 f n.
Proof.
  revert n. induction f as [|f IH]; intros n; simpl; [by intros ?%elem_of_nil|].
  intros [E|E]%elem_of_cons.
  - symmetry in E. by apply digit36_not_dash in E; [|apply N.mod_lt].
  - destruct (n / 36 =? 0); [by apply elem_of_nil in E | by apply IH in E].
Qed.

Lemma toString36_inj n m : toString36 n = toString36 m → n = m.
Proof.
  unfold toString36. intros E%(f_equal (@rev ascii)). rewrite !rev_involutive in E.
  eapply digits36_inj; eauto using fits_size.
Qed.

Lemma toString36_no_dash n : "-"%char ∉ toString36 n.
Proof.
  unfold toString36. rewrite list_elem_of_In, <- in_rev, <- list_elem_of_In.
  apply digits36_no_dash.
Qed.

(** A text is cut at its last dash in one way only. *)
Lemma last_dash_unique (a b u v : list ascii) (x : ascii) :
  x ∉ u → x ∉ v → a ++ x :: u = b ++ x :: v → u = v.
Proof.
  intros Hu Hv E. apply (f_equal (@rev ascii)) in E.
  rewrite !rev_app_distr in E. simpl in E. rewrite <- !app_assoc in E. simpl in E.
  assert (∀ p q r r' : list ascii, x ∉ p → x ∉ q → p ++ x :: r = q ++ x :: r' → p = q) as H.
  { clear. induction p as [|c p IH]; intros [|d q] r r' Hp Hq; simpl.
    - done.
    - intros [= -> _]. destruct Hq. by left.
    - intros [= -> _]. destruct Hp. by left.
    - intros [= -> E]. f_equal. eapply IH; eauto.
      + intros ?; apply Hp; by right.
      + intros ?; apply Hq; by right. }
  apply H in E.
  - apply (f_equal (@rev ascii)) in E. by rewrite !rev_involutive in E.
  - by rewrite list_elem_of_In, <- in_rev, <- list_elem_of_In.
  - by rewrite list_elem_of_In, <- in_rev, <- list_elem_of_In.
Qed.

(** Two identifiers are equal only if their counters are. *)
Lemma clientId_counter now now' k k' : clientId now k = clientId now' k' → k = k'.
Proof.
  unfold clientId. intros E%(f_equal list_ascii_of_string).
  rewrite !list_ascii_of_string_of_list_ascii in E.
  apply toString36_inj.
  eapply (last_dash_unique ("c" :: "-" :: toString36Z now)%char
                           ("c" :: "-" :: toString36Z now')%char);
    eauto using toString36_no_dash.
Qed.

Lemma issued_fresh n p now : issued n p → p ≠ clientId now (n + 1).
Proof. intros (now' & k & -> & Hk) E%clientId_counter. lia. Qed.
End identifiers.

Lemma reachable_run evs : reachable (run evs initial).
Proof.
  unfold run. induction evs as [|ev evs IH] using rev_ind.
  - apply reachable_initial.
  - rewrite foldl_app. simpl. by apply reachable_step.
Qed.

Lemma players_get_delete pid (l : list (string * SocketRef)) :
  players_get pid (players_delete pid l) = None.
Proof.
  unfold players_delete. induction l as [|[k v] l IH]; [done|].
  rewrite filter_cons. simpl. case_decide as E; simpl; [|done].
  by rewrite decide_False.
Qed.

(** C1 (as amended): when a participant relays and the host of its
    session is not open, the only frame written is a [session-closed]
    notice without a message, to the participant itself if it is open;
    nothing reaches the host, the participant loses its binding and its
    entry in the session, and its socket is closed. *)
Theorem relayFromPlayer_host_gone st s c pid x message :
  info st s = Some (RolePlayer c pid) →
  sessions st !! c = Some x →
  is_open st (dm x) = false →
  let st' := relayFromPlayer s message st in
  outbox st' = outbox st ++ (if is_open st s then [(s, SessionClosed None)] else [])
  ∧ info st' s = None
  ∧ is_open st' s = false
  ∧ (∀ x', sessions st' !! c = Some x' → players_get pid (players x') ≠ Some s).
Proof.
  intros Hi Hx Hd. unfold relayFromPlayer. rewrite Hi, Hx, Hd. simpl.
  unfold sessionUnavailable, detachClient. rewrite info_safeSend, Hi. simpl.
  rewrite sessions_safeSend, Hx.
  set (st0 := safeSend s (SessionClosed None) st).
  assert (outbox st0 = outbox st ++ (if is_open st s then [(s, SessionClosed None)] else []))
    as Hout by apply outbox_safeSend.
  assert (∀ t, is_open st0 t = is_open st t) as Hopen by (intros; apply is_open_safeSend).
  case_decide as Hreg.
  - rewrite is_open_setSessions, Hopen, Hd. rewrite is_open_setInfo, is_open_setSessions, Hopen.
    destruct (is_open st s) eqn:Hs.
    + repeat split; try done.
      * by rewrite info_socketClose, info_setInfo, decide_True.
      * by rewrite is_open_socketClose, decide_True.
      * intros x'; simpl. rewrite lookup_insert_eq. intros [= <-]; simpl.
        by rewrite players_get_delete.
    + repeat split; try done.
      * by rewrite info_setInfo, decide_True.
      * by rewrite is_open_setInfo, is_open_setSessions, Hopen.
      * intros x'; simpl. rewrite lookup_insert_eq. intros [= <-]; simpl.
        by rewrite players_get_delete.
  - rewrite is_open_setInfo, Hopen.
    assert (∀ x', sessions st0 !! c = Some x' → players_get pid (players x') ≠ Some s).
    { intros x'. unfold st0. rewrite sessions_safeSend, Hx. by intros [= <-]. }
    destruct (is_open st s) eqn:Hs.
    + repeat split; try done.
      * by rewrite info_socketClose, info_setInfo, decide_True.
      * by rewrite is_open_socketClose, decide_True.
    + repeat split; try done.
      * by rewrite info_setInfo, decide_True.
      * by rewrite is_open_setInfo, Hopen.
Qed.

Lemma relayFromPlayer_host_gone_witness :
  let st := run host_closing initial in
  let st' := relayFromPlayer 1 (JObj [("type", JStr "relay"); ("payload", JObj [])]) st in
  outbox st' = outbox st ++ [(1, SessionClosed None)]
  ∧ info st' 1 = None
  ∧ is_open st' 1 = false
  ∧ (∀ x', sessions st' !! "ABC" = Some x' →
       players_get "c-rt-1" (players x') ≠ Some 1).
Proof.
  apply (relayFromPlayer_host_gone (run host_closing initial) 1 "ABC" "c-rt-1"
           (mkSession "ABC" 0 [("c-rt-1", 1)])); vm_compute; reflexivity.
Defined.

(** C1 (as stated) fails: the participant of a session whose host is
    closing relays a payload and is sent [session-closed], and no
    [session-error] notice is written to anyone. *)
Lemma relayFromPlayer_host_gone_no_error :
  let st := run host_closing initial in
  let st' := relayFromPlayer 1 (JObj [("type", JStr "relay"); ("payload", JObj [])]) st in
  info st 1 = Some (RolePlayer "ABC" "c-rt-1")
  ∧ sessions st !! "ABC" = Some (mkSession "ABC" 0 [("c-rt-1", 1)])
  ∧ is_open st 0 = false
  ∧ outbox st' = outbox st ++ [(1, SessionClosed None)]
  ∧ ¬ ∃ t m, (t, SessionError m) ∈ outbox st'.
Proof.
  vm_compute. repeat split; try reflexivity.
  intros (t & m & H). repeat (apply elem_of_cons in H as [H|H]; [discriminate|]).
  by apply elem_of_nil in H.
Qed.

(** C2 (as amended): a create-session request from a socket bound as
    host, or with a code that is empty after normalization, or with a
    code already registered, does nothing but send one [session-error]
    notice to the requester (written if the requester is open): the
    session table, every socket and the counter are left as they were. *)
Theorem handleCreateSession_rejected st s message :
  let c := normalizeCode (field "code" message) in
  c = "" ∨ isDm (info st s) = true ∨ is_Some (sessions st !! c) →
  let st' := handleCreateSession s message st in
  ∃ m, st' = safeSend s (SessionError m) st
    ∧ sessions st' = sessions st
    ∧ sockets st' = sockets st
    ∧ clientCounter st' = clientCounter st
    ∧ outbox st' = outbox st ++ (if is_open st s then [(s, SessionError m)] else []).
Proof.
  intros c H. unfold handleCreateSession. fold c.
  assert (∀ m, sockets (safeSend s (SessionError m) st) = sockets st) as Hsock.
  { intros m. unfold safeSend. by case (is_open st s). }
  assert (∀ m, ∃ m', safeSend s (SessionError m) st = safeSend s (SessionError m') st
     ∧ sessions (safeSend s (SessionError m) st) = sessions st
     ∧ sockets (safeSend s (SessionError m) st) = sockets st
     ∧ clientCounter (safeSend s (SessionError m) st) = clientCounter st
     ∧ outbox (safeSend s (SessionError m) st) =
         outbox st ++ (if is_open st s then [(s, SessionError m')] else [])) as Hsend.
  { intros m; exists m.
    by rewrite sessions_safeSend, clientCounter_safeSend, outbox_safeSend, Hsock. }
  case_decide as E1; [apply Hsend|].
  destruct (isDm (info st s)) eqn:E2; [apply Hsend|].
  case_decide as E3; [apply Hsend|].
  destruct H as [?|[?|?]]; done.
Qed.

Lemma handleCreateSession_rejected_witness :
  let st := run hosted_session initial in
  let st' := handleCreateSession 0 (JObj [("code", JStr "xyz")]) st in
  ∃ m, st' = safeSend 0 (SessionError m) st
    ∧ sessions st' = sessions st
    ∧ sockets st' = sockets st
    ∧ clientCounter st' = clientCounter st
    ∧ outbox st' = outbox st ++ (if is_open st 0 then [(0, SessionError m)] else []).
Proof.
  apply (handleCreateSession_rejected (run hosted_session initial) 0
           (JObj [("code", JStr "xyz")])).
  right; left. vm_compute. reflexivity.
Defined.

(** C2 (as stated) fails: a socket bound as participant asks for a new
    session under a free code; the session is registered and the socket
    becomes its host, with no error notice. *)
Lemma handleCreateSession_participant_creates :
  let st := run hosted_session initial in
  let st' := handleCreateSession 1 (JObj [("code", JStr "xyz")]) st in
  info st 1 = Some (RolePlayer "ABC" "c-rt-1")
  ∧ sessions st !! "XYZ" = None
  ∧ sessions st' !! "XYZ" = Some (mkSession "XYZ" 1 [])
  ∧ info st' 1 = Some (RoleDm "XYZ")
  ∧ outbox st' = outbox st ++ [(1, SessionCreated "XYZ")].
Proof. vm_compute. repeat split; reflexivity. Qed.

(** C4 (as amended): after a successful create, a second create whose
    code normalizes to the same text is rejected and the first session
    stays registered; the notice is SessionExists when the second
    requester is not bound as host, and the already-hosting notice when
    it is, as the first requester itself now is. *)
Theorem handleCreateSession_twice st s1 m1 s2 m2 :
  let c := normalizeCode (field "code" m1) in
  c ≠ "" → isDm (info st s1) = false → sessions st !! c = None →
  normalizeCode (field "code" m2) = c →
  let st1 := handleCreateSession s1 m1 st in
  let st2 := handleCreateSession s2 m2 st1 in
  sessions st1 !! c = Some (mkSession c s1 [])
  ∧ info st1 s1 = Some (RoleDm c)
  ∧ (s2 ≠ s1 → info st1 s2 = info st s2)
  ∧ st2 = safeSend s2 (SessionError (if isDm (info st1 s2)
                                     then msgAlreadyHosting else msgSessionExists)) st1
  ∧ sessions st2 !! c = Some (mkSession c s1 []).
Proof.
  intros c Hc Hdm Hfree Hsame st1 st2.
  assert (st1 = safeSend s1 (SessionCreated c)
                  (setInfo s1 (Some (RoleDm c))
                     (setSessions (<[c := mkSession c s1 []]> (sessions st)) st))) as E1.
  { unfold st1, handleCreateSession. fold c. rewrite decide_False by done.
    rewrite Hdm, Hfree. rewrite decide_False; [done|]. by intros [? ?]. }
  assert (sessions st1 !! c = Some (mkSession c s1 [])) as Hreg.
  { rewrite E1, sessions_safeSend. simpl. by rewrite lookup_insert_eq. }
  assert (st2 = safeSend s2 (SessionError (if isDm (info st1 s2)
                 then msgAlreadyHosting else msgSessionExists)) st1) as E2.
  { unfold st2, handleCreateSession. rewrite Hsame. rewrite decide_False by done.
    destruct (isDm (info st1 s2)); [done|]. rewrite decide_True; [done|]. by rewrite Hreg. }
  repeat split; try done.
  - rewrite E1, info_safeSend, info_setInfo. by rewrite decide_True.
  - intros Hne. rewrite E1, info_safeSend, info_setInfo. by rewrite decide_False.
  - by rewrite E2, sessions_safeSend.
Qed.

Lemma handleCreateSession_twice_witness :
  let st := run [EvConnection 0; EvConnection 1] initial in
  let m1 := JObj [("code", JStr "xyz")] in
  let m2 := JObj [("code", JStr " XyZ ")] in
  let st1 := handleCreateSession 0 m1 st in
  let st2 := handleCreateSession 1 m2 st1 in
  sessions st1 !! "XYZ" = Some (mkSession "XYZ" 0 [])
  ∧ info st1 0 = Some (RoleDm "XYZ")
  ∧ (1 ≠ 0 → info st1 1 = info st 1)
  ∧ st2 = safeSend 1 (SessionError (if isDm (info st1 1)
                                    then msgAlreadyHosting else msgSessionExists)) st1
  ∧ sessions st2 !! "XYZ" = Some (mkSession "XYZ" 0 []).
Proof.
  apply (handleCreateSession_twice (run [EvConnection 0; EvConnection 1] initial) 0
           (JObj [("code", JStr "xyz")]) 1 (JObj [("code", JStr " XyZ ")]));
    vm_compute; done.
Defined.

(** C4 (as stated) fails: the socket that has just created ABC asks
    again with a case and white-space variant of the code and is told
    that it is already hosting, not that the session exists. *)
Lemma handleCreateSession_twice_same_socket :
  let st := run [EvConnection 0] initial in
  let st1 := handleCreateSession 0 (JObj [("code", JStr "abc")]) st in
  let st2 := handleCreateSession 0 (JObj [("code", JStr " ABC ")]) st1 in
  outbox st1 = [(0, SessionCreated "ABC")]
  ∧ outbox st2 = [(0, SessionCreated "ABC"); (0, SessionError msgAlreadyHosting)]
  ∧ msgAlreadyHosting ≠ msgSessionExists.
Proof. vm_compute. repeat split; try reflexivity. discriminate. Qed.

(** C3 (as amended): in every reachable state a socket bound as host of
    a code is the host of the session registered under that code; and a
    join request for a code whose registered host is not open is
    answered with the SessionNotFound notice and leaves the session
    table as it was, stale entry included. *)
Theorem host_sessions_registered st :
  reachable st →
  (∀ s c, info st s = Some (RoleDm c) →
     ∃ x, sessions st !! c = Some x ∧ dm x = s ∧ code x = c)
  ∧ (∀ s now message x,
       sessions st !! normalizeCode (field "code" message) = Some x →
       is_open st (dm x) = false →
       handleJoinSession s now message st = safeSend s (SessionError msgSessionNotFound) st
       ∧ sessions (handleJoinSession s now message st) = sessions st).
Proof.
  intros [Hk Hh _]%reachable_Inv. split.
  - intros s c E. destruct (Hh _ _ E) as (x & Hx & Hd).
    exists x. repeat split; try done. by apply Hk.
  - intros s now message x Hx Hd.
    assert (handleJoinSession s now message st
            = safeSend s (SessionError msgSessionNotFound) st) as E.
    { unfold handleJoinSession. rewrite Hx, Hd. simpl.
      rewrite decide_False; [done|]. by apply Hk in Hx as [_ ?]. }
    by rewrite E, sessions_safeSend.
Qed.

Lemma host_sessions_registered_witness :
  let st := run host_closing initial in
  (∀ s c, info st s = Some (RoleDm c) →
     ∃ x, sessions st !! c = Some x ∧ dm x = s ∧ code x = c)
  ∧ (∀ s now message x,
       sessions st !! normalizeCode (field "code" message) = Some x →
       is_open st (dm x) = false →
       handleJoinSession s now message st = safeSend s (SessionError msgSessionNotFound) st
       ∧ sessions (handleJoinSession s now message st) = sessions st).
Proof.
  exact (host_sessions_registered (run host_closing initial) (reachable_run host_closing)).
Defined.

(** C3 (as stated) fails: the host of ABC is closing when another
    socket asks to join; the request is refused and the entry of the
    dead host is still in the table afterwards. *)
Lemma handleJoinSession_keeps_stale_entry :
  let st := run (host_closing ++ [EvConnection 2]) initial in
  let st' := handleJoinSession 2 1002 (JObj [("code", JStr "abc")]) st in
  sessions st !! "ABC" = Some (mkSession "ABC" 0 [("c-rt-1", 1)])
  ∧ is_open st 0 = false
  ∧ outbox st' = outbox st ++ [(2, SessionError msgSessionNotFound)]
  ∧ sessions st' !! "ABC" = Some (mkSession "ABC" 0 [("c-rt-1", 1)]).
Proof. vm_compute. repeat split; reflexivity. Qed.

(** A detached socket is unbound, so detaching it again, as the [close]
    event does after a heartbeat has torn it down, changes nothing. *)
Lemma detachClient_unbinds s r silent st : info (detachClient s r silent st) s = None.
Proof.
  unfold detachClient. destruct (info st s) as [i|] eqn:Hi; [|done].
  case (negb silent && _).
  - by rewrite info_socketClose, info_setInfo, decide_True.
  - by rewrite info_setInfo, decide_True.
Qed.

Lemma detachClient_again s r r' silent silent' st :
  detachClient s r' silent' (detachClient s r silent st) = detachClient s r silent st.
Proof. unfold detachClient at 1. by rewrite detachClient_unbinds. Qed.

(** C7: the claim fails on this run.  Socket 1 is bound as host of XYZ,
    is open and has its liveness flag cleared when the second heartbeat
    starts; the sweep reaches socket 0 first, ends ABC and, through the
    entry socket 1 still has there, clears the binding of socket 1.  The
    sweep then finds socket 1 unbound and removes nothing: XYZ stays
    registered after both sockets are closed and gone. *)
Theorem heartbeat_leaves_session_of_dead_host :
  let before := run (hosted_session ++
      [ EvMessage 1 1002 (msg "create-session" [("code", JStr "XYZ")]); EvHeartbeat ])
      initial in
  let after := run participant_hosts_then_timeout initial in
  info before 1 = Some (RoleDm "XYZ")
  ∧ is_open before 1 = true
  ∧ isAlive (sock before 1) = false
  ∧ sessions (heartbeatInterval before) !! "XYZ" = Some (mkSession "XYZ" 1 [])
  ∧ sessions after !! "XYZ" = Some (mkSession "XYZ" 1 [])
  ∧ readyState (sock after 1) = CLOSED
  ∧ clients after = [].
Proof. vm_compute. repeat split; reflexivity. Qed.

Lemma broadcast_from payload x st0 st :
  sockets st = sockets st0 →
  broadcast payload x st =
  mkState (sockets st) (clients st) (sessions st) (clientCounter st)
    (outbox st ++ map (λ e, (e.2, Relay None payload))
                      (filter (λ e, is_open st0 e.2 = true) (players x))).
Proof.
  unfold broadcast. generalize (players x) as l.
  intros l; revert st; induction l as [|e l IH]; intros st Hs.
  - destruct st; simpl. by rewrite app_nil_r.
  - cbn [foldl]. rewrite IH by (rewrite <- Hs; unfold safeSend; by case (is_open st e.2)).
    assert (is_open st e.2 = is_open st0 e.2) as Ho by (unfold is_open, sock; by rewrite Hs).
    rewrite filter_cons. unfold safeSend. rewrite Ho.
    destruct (is_open st0 e.2) eqn:E; simpl.
    + by rewrite <- app_assoc.
    + done.
Qed.

Lemma broadcast_outbox payload x st :
  broadcast payload x st =
  mkState (sockets st) (clients st) (sessions st) (clientCounter st)
    (outbox st ++ map (λ e, (e.2, Relay None payload))
                      (filter (λ e, is_open st e.2 = true) (players x))).
Proof. by apply broadcast_from. Qed.

(** C10: when the [playerId] of a host relay is present but is not a
    non-empty string, the relay is a broadcast: the structured payload
    is written to each registered participant that is open, as for a
    message without [playerId]. *)
Theorem relayFromDm_bad_playerId_broadcasts st s c x message payload v :
  info st s = Some (RoleDm c) →
  sessions st !! c = Some x →
  field "payload" message = Some payload →
  structured (Some payload) = true →
  field "playerId" message = Some v →
  (∀ id, v = JStr id → id = "") →
  let st' := relayFromDm s message st in
  st' = broadcast payload x st
  ∧ sessions st' = sessions st
  ∧ sockets st' = sockets st
  ∧ outbox st' = outbox st ++
      map (λ e, (e.2, Relay None payload))
          (filter (λ e, is_open st e.2 = true) (players x)).
Proof.
  intros Hi Hx Hp Hstruct Hv Hbad.
  assert (targetId (Some v) = None) as Htarget.
  { destruct v as [| | |id| |]; try done. rewrite (Hbad id eq_refl). done. }
  unfold relayFromDm. rewrite Hi, Hx, Hp.
  apply andb_prop in Hstruct as [Ht Ho]. rewrite Ht, Ho, Hv, Htarget. simpl.
  split; [done|]. by rewrite broadcast_outbox.
Qed.

Lemma relayFromDm_bad_playerId_broadcasts_witness :
  let st := run hosted_session initial in
  let payload := JObj [("initiative", JNum 9 0)] in
  let message := JObj [("type", JStr "relay"); ("payload", payload); ("playerId", JNum 7 0)] in
  let st' := relayFromDm 0 message st in
  st' = broadcast payload (mkSession "ABC" 0 [("c-rt-1", 1)]) st
  ∧ sessions st' = sessions st
  ∧ sockets st' = sockets st
  ∧ outbox st' = outbox st ++
      map (λ e, (e.2, Relay None payload))
          (filter (λ e, is_open st e.2 = true) [("c-rt-1", 1)]).
Proof.
  apply (relayFromDm_bad_playerId_broadcasts (run hosted_session initial) 0 "ABC"
           (mkSession "ABC" 0 [("c-rt-1", 1)])
           (JObj [("type", JStr "relay"); ("payload", JObj [("initiative", JNum 9 0)]);
                  ("playerId", JNum 7 0)])
           (JObj [("initiative", JNum 9 0)]) (JNum 7 0)); try (vm_compute; reflexivity).
  intros id [=].
Defined.

Lemma handleJoinSession_missing s now message st :
  let c := normalizeCode (field "code" message) in
  c ≠ "" → sessions st !! c = None →
  handleJoinSession s now message st = safeSend s (SessionError msgSessionNotFound) st.
Proof.
  intros c Hc Hnone. unfold handleJoinSession. fold c.
  by rewrite decide_False, Hnone.
Qed.

(** C6 (as amended): a close-session request changes nothing unless
    the sender is bound as host and is the host of the session
    registered under its code; whether the sender's own connection is
    still open plays no part.  When it is, the session leaves the table, the host and every
    registered participant are unbound, the frames written are exactly
    one [session-closed] notice to each open participant, and a join for
    any text that normalizes to the code is answered with
    SessionNotFound, at once and for as long as the code is not
    registered again. *)
Theorem handleCloseSession_effect st s :
  reachable st →
  ((¬ ∃ c x, info st s = Some (RoleDm c) ∧ sessions st !! c = Some x ∧ dm x = s) →
     handleCloseSession s st = st)
  ∧ (∀ c x, info st s = Some (RoleDm c) → sessions st !! c = Some x → dm x = s →
       let st' := handleCloseSession s st in
       sessions st' = delete c (sessions st)
       ∧ info st' s = None
       ∧ (∀ t, t ∈ (players x).*2 → info st' t = None)
       ∧ (∃ new, outbox st' = outbox st ++ new ∧ NoDup new
            ∧ ∀ e, e ∈ new ↔
                ∃ t, e = (t, SessionClosed (Some "The DM closed the session."))
                     ∧ t ∈ (players x).*2 ∧ is_open st t = true)
       ∧ (∀ t now message, normalizeCode (field "code" message) = c →
            handleJoinSession t now message st'
            = safeSend t (SessionError msgSessionNotFound) st')
       ∧ (∀ st2 t now message, sessions st2 !! c = None →
            normalizeCode (field "code" message) = c →
            handleJoinSession t now message st2
            = safeSend t (SessionError msgSessionNotFound) st2)).
Proof.
  intros [Hk _ _]%reachable_Inv. split.
  - intros Hno. unfold handleCloseSession.
    destruct (info st s) as [[c|c pid]|] eqn:Hi; try done.
    destruct (sessions st !! c) as [x|] eqn:Hx; [|done].
    case_decide; [|done]. destruct Hno; eauto.
  - intros c x Hi Hx Hd st'.
    destruct (Hk _ _ Hx) as [Hcode Hne].
    assert (st' = setInfo s None (endSession x "The DM closed the session." st)) as ->.
    { unfold st', handleCloseSession. by rewrite Hi, Hx, decide_True. }
    assert (sessions (setInfo s None (endSession x "The DM closed the session." st))
            = delete c (sessions st)) as Hs.
    { simpl. by rewrite endSession_sessions, Hcode. }
    repeat split.
    + done.
    + by rewrite info_setInfo, decide_True.
    + intros t Ht. rewrite info_setInfo. case_decide; [done|].
      by rewrite endSession_info, decide_True.
    + apply endSession_outbox.
    + intros t now message Hc. apply handleJoinSession_missing; rewrite Hc; [done|].
      rewrite Hs. apply lookup_delete_eq.
    + intros st2 t now message Hnone Hc.
      apply handleJoinSession_missing; by rewrite Hc.
Qed.

Lemma handleCloseSession_effect_witness :
  let st := run hosted_session initial in
  let st' := handleCloseSession 0 st in
  sessions st' = delete "ABC" (sessions st)
  ∧ info st' 0 = None
  ∧ (∀ t, t ∈ [("c-rt-1", 1)].*2 → info st' t = None)
  ∧ (∃ new, outbox st' = outbox st ++ new ∧ NoDup new
       ∧ ∀ e, e ∈ new ↔
           ∃ t, e = (t, SessionClosed (Some "The DM closed the session."))
                ∧ t ∈ [("c-rt-1", 1)].*2 ∧ is_open st t = true)
  ∧ (∀ t now message, normalizeCode (field "code" message) = "ABC" →
       handleJoinSession t now message st'
       = safeSend t (SessionError msgSessionNotFound) st')
  ∧ (∀ st2 t now message, sessions st2 !! "ABC" = None →
       normalizeCode (field "code" message) = "ABC" →
       handleJoinSession t now message st2
       = safeSend t (SessionError msgSessionNotFound) st2).
Proof.
  apply (proj2 (handleCloseSession_effect (run hosted_session initial) 0
                  (reachable_run hosted_session))
           "ABC" (mkSession "ABC" 0 [("c-rt-1", 1)])); vm_compute; reflexivity.
Defined.

(** C6 (as stated) fails: socket 1 has been closed by the end of ABC and
    is no longer open, yet it is still a client, it is the host of XYZ,
    and its close-session takes effect: XYZ leaves the table and the
    socket is unbound.  The sender need not be live. *)
Lemma handleCloseSession_closing_host :
  let st := run closing_socket_hosts initial in
  let st' := step (EvMessage 1 1004 (msg "close-session" [])) st in
  connected st 1 = true
  ∧ readyState (sock st 1) = CLOSING
  ∧ is_open st 1 = false
  ∧ info st 1 = Some (RoleDm "XYZ")
  ∧ sessions st !! "XYZ" = Some (mkSession "XYZ" 1 [])
  ∧ st' = handleCloseSession 1 st
  ∧ sessions st' !! "XYZ" = None
  ∧ info st' 1 = None.
Proof. vm_compute. repeat split; reflexivity. Qed.

Lemma handleJoinSession_success s now message st x :
  let c := normalizeCode (field "code" message) in
  c ≠ "" → sessions st !! c = Some x → is_open st (dm x) = true →
  let st1 := detachClient s None true st in
  let pid := clientId now (clientCounter st + 1) in
  handleJoinSession s now message st =
  safeSend (dm x) (PlayerJoined pid)
    (safeSend s (SessionJoined c pid)
       (setInfo s (Some (RolePlayer c pid))
          (setSessions (alter (withPlayers (players_set pid s)) c (sessions st1))
             (mkState (sockets st1) (clients st1) (sessions st1)
                      (clientCounter st + 1) (outbox st1))))).
Proof.
  intros c Hc Hx Ho st1 pid. unfold handleJoinSession. fold c.
  rewrite decide_False by done. rewrite Hx, Ho. simpl negb. cbv iota.
  assert (match info st s with
          | Some _ => detachClient s None true st
          | None => st
          end = st1) as ->.
  { unfold st1, detachClient. by destruct (info st s). }
  unfold createClientId.
  assert (clientCounter st1 = clientCounter st) as ->; [|done].
  apply (shrinks_detachClient s None true st).
Qed.

(** C8: the id handed out by a successful join was held by no binding
    and by no registered session before the join, and after it the only
    binding and the only entry that carry it are those of the joining
    socket: every other participant, in every session, has another id. *)
Theorem handleJoinSession_fresh_id st s now message x :
  reachable st →
  let c := normalizeCode (field "code" message) in
  sessions st !! c = Some x → is_open st (dm x) = true →
  let pid := clientId now (clientCounter st + 1) in
  let st' := handleJoinSession s now message st in
  info st' s = Some (RolePlayer c pid)
  ∧ (∀ t c' p, info st t = Some (RolePlayer c' p) → p ≠ pid)
  ∧ (∀ c' x' p t, sessions st !! c' = Some x' → (p, t) ∈ players x' → p ≠ pid)
  ∧ (∀ t c' p, info st' t = Some (RolePlayer c' p) → p = pid → t = s)
  ∧ (∀ c' x' p t, sessions st' !! c' = Some x' → (p, t) ∈ players x' →
       p = pid → t = s ∧ c' = c).
Proof.
  intros [Hk _ [Hb Hp]]%reachable_Inv c Hx Ho pid st'.
  destruct (Hk _ _ Hx) as [_ Hne].
  unfold st'. rewrite (handleJoinSession_success s now message st x) by done.
  fold c pid. set (st1 := detachClient s None true st).
  destruct (shrinks_detachClient s None true st) as (Hi1 & Hs1 & _). fold st1 in Hi1, Hs1.
  assert (∀ t c' p, info st t = Some (RolePlayer c' p) → p ≠ pid) as Hold.
  { intros t c' p E. eapply issued_fresh, Hb, E. }
  assert (∀ c' x' p t, sessions st !! c' = Some x' → (p, t) ∈ players x' → p ≠ pid) as Holdp.
  { intros c' x' p t E Hin. eapply issued_fresh, Hp; eauto. }
  repeat split; try done.
  - rewrite !info_safeSend, info_setInfo. by rewrite decide_True.
  - intros t c' p. rewrite !info_safeSend, info_setInfo. case_decide; [done|].
    change (info st1 t = Some (RolePlayer c' p) → p = pid → t = s).
    intros E ->. destruct (Hi1 t) as [E'|E']; rewrite E' in E; [|done].
    by apply Hold in E.
  - revert H. rewrite !sessions_safeSend. simpl. rewrite lookup_alter.
    case_decide as Ec; intros Hl.
    + destruct (sessions st1 !! c) as [x1|] eqn:Hx1; [|done].
      simpl in Hl. injection Hl as <-. simpl in H0.
      apply players_set_elem in H0 as [Hin|[= _ ->]]; [|done].
      destruct (Hs1 _ _ Hx1) as (x0 & Hx0 & _ & _ & Hsub).
      subst p. by eapply Holdp in Hx0; [|apply Hsub, Hin].
    + destruct (Hs1 _ _ Hl) as (x0 & Hx0 & _ & _ & Hsub).
      subst p. by eapply Holdp in Hx0; [|apply Hsub, H0].
  - revert H. rewrite !sessions_safeSend. simpl. rewrite lookup_alter.
    case_decide as Ec; intros Hl; [done|].
    destruct (Hs1 _ _ Hl) as (x0 & Hx0 & _ & _ & Hsub).
    subst p. by eapply Holdp in Hx0; [|apply Hsub, H0].
Qed.

Lemma handleJoinSession_fresh_id_witness :
  let st := run (hosted_session ++ [EvConnection 2]) initial in
  let message := JObj [("type", JStr "join-session"); ("code", JStr "abc")] in
  let pid := clientId 1002 (clientCounter st + 1) in
  let st' := handleJoinSession 2 1002 message st in
  info st' 2 = Some (RolePlayer "ABC" pid)
  ∧ (∀ t c' p, info st t = Some (RolePlayer c' p) → p ≠ pid)
  ∧ (∀ c' x' p t, sessions st !! c' = Some x' → (p, t) ∈ players x' → p ≠ pid)
  ∧ (∀ t c' p, info st' t = Some (RolePlayer c' p) → p = pid → t = 2)
  ∧ (∀ c' x' p t, sessions st' !! c' = Some x' → (p, t) ∈ players x' →
       p = pid → t = 2 ∧ c' = "ABC").
Proof.
  apply (handleJoinSession_fresh_id (run (hosted_session ++ [EvConnection 2]) initial)
           2 1002 (JObj [("type", JStr "join-session"); ("code", JStr "abc")])
           (mkSession "ABC" 0 [("c-rt-1", 1)]) (reachable_run _));
    vm_compute; reflexivity.
Defined.

(** What the teardown branch of [relayFromPlayer] does to a participant
    whose session is not registered or has a host that is not open. *)
Lemma sessionUnavailable_effect st s c pid :
  info st s = Some (RolePlayer c pid) →
  (∀ x, sessions st !! c = Some x → is_open st (dm x) = false) →
  let st' := sessionUnavailable s st in
  outbox st' = outbox st ++ (if is_open st s then [(s, SessionClosed None)] else [])
  ∧ info st' s = None
  ∧ is_open st' s = false
  ∧ (∀ x', sessions st' !! c = Some x' → players_get pid (players x') ≠ Some s)
  ∧ (∀ c', c' ≠ c → sessions st' !! c' = sessions st !! c')
  ∧ (∀ t, t ≠ s → sock st' t = sock st t).
Proof.
  intros Hi Hdead st'. unfold st', sessionUnavailable, detachClient.
  rewrite info_safeSend, Hi.
  set (st0 := safeSend s (SessionClosed None) st).
  set (R := detachRole s (RolePlayer c pid) (Some "Session unavailable.") st0).
  assert (outbox R = outbox st0 ∧ (∀ t, sock R t = sock st0 t)
          ∧ (∀ x', sessions R !! c = Some x' → players_get pid (players x') ≠ Some s)
          ∧ (∀ c', c' ≠ c → sessions R !! c' = sessions st !! c')) as (Hout & Hsock & Hreg & Hoth).
  { assert (sessions st0 = sessions st) as Hs0 by apply sessions_safeSend.
    assert (∀ t, is_open st0 t = is_open st t) as Hopen0 by (intros; apply is_open_safeSend).
    unfold R. cbn [detachRole]. rewrite Hs0.
    destruct (sessions st !! c) as [x|] eqn:Hx.
    - case_decide as Hin.
      + rewrite is_open_setSessions, Hopen0, (Hdead x eq_refl).
        repeat split.
        * intros x'. cbn [sessions setSessions]. rewrite lookup_insert_eq.
          intros [= <-]. simpl. by rewrite players_get_delete.
        * intros c' Hne. cbn [sessions setSessions]. by rewrite lookup_insert_ne.
      + repeat split.
        * intros x'. rewrite Hs0, Hx. by intros [= <-].
        * intros c' _. by rewrite Hs0.
    - repeat split.
      + intros x'. by rewrite Hs0, Hx.
      + intros c' _. by rewrite Hs0. }
  assert (is_open (setInfo s None R) s = is_open st s) as Hopen.
  { rewrite is_open_setInfo. unfold is_open. rewrite Hsock. unfold st0.
    by rewrite sock_safeSend. }
  assert (outbox st0 = outbox st ++ (if is_open st s then [(s, SessionClosed None)] else []))
    as Hout0 by apply outbox_safeSend.
  assert (∀ t, t ≠ s → sock (setInfo s None R) t = sock st t) as Hrest.
  { intros t Hne. unfold setInfo. rewrite sock_updSock, decide_False by done.
    rewrite Hsock. unfold st0. by rewrite sock_safeSend. }
  simpl negb. rewrite andb_true_l, Hopen.
  destruct (is_open st s) eqn:Hs.
  - repeat split.
    + cbn [outbox socketClose setInfo updSock]. by rewrite Hout, Hout0.
    + by rewrite info_socketClose, info_setInfo, decide_True.
    + by rewrite is_open_socketClose, decide_True.
    + apply Hreg.
    + apply Hoth.
    + intros t Hne. unfold socketClose. rewrite sock_updSock, decide_False by done.
      by apply Hrest.
  - repeat split.
    + cbn [outbox setInfo updSock]. by rewrite Hout, Hout0.
    + by rewrite info_setInfo, decide_True.
    + done.
    + apply Hreg.
    + apply Hoth.
    + apply Hrest.
Qed.

(** C9 (as amended): a relay message whose payload is missing or is not
    a structured object is dropped without a trace when it comes from a
    host, and every relay from an unbound socket is dropped; from a
    participant whose session is registered and whose host is open, a
    relay whose payload is missing or is a boolean, a number or a string
    is dropped without a trace.  Dropped means that the state, outbox
    included, is what it was.  A participant whose session is not
    registered or whose host is not open is torn down whatever the
    payload: the one frame written is [session-closed], to the
    participant itself if it is open; it is unbound and closed, it is no
    longer registered under its id, and no other session and no other
    socket changes. *)
Theorem relay_malformed_dropped st s now message :
  field "type" message = Some (JStr "relay") →
  let st' := onMessage s now (Some message) st in
  (isDm (info st s) = true → structured (field "payload" message) = false → st' = st)
  ∧ (info st s = None → st' = st)
  ∧ (∀ c pid x, info st s = Some (RolePlayer c pid) →
       sessions st !! c = Some x → is_open st (dm x) = true →
       isObject (field "payload" message) = false → st' = st)
  ∧ (∀ c pid, info st s = Some (RolePlayer c pid) →
       (sessions st !! c = None
        ∨ ∃ x, sessions st !! c = Some x ∧ is_open st (dm x) = false) →
       outbox st' = outbox st ++ (if is_open st s then [(s, SessionClosed None)] else [])
       ∧ info st' s = None
       ∧ is_open st' s = false
       ∧ (∀ x', sessions st' !! c = Some x' → players_get pid (players x') ≠ Some s)
       ∧ (∀ c', c' ≠ c → sessions st' !! c' = sessions st !! c')
       ∧ (∀ t, t ≠ s → sock st' t = sock st t)).
Proof.
  intros Htype st'.
  assert (st' = if isDm (info st s) then relayFromDm s message st
                else relayFromPlayer s message st) as ->.
  { unfold st', onMessage. destruct message as [| | | | |fields]; try done.
    simpl. simpl in Htype. by rewrite Htype. }
  split; [|split; [|split]].
  - intros Hdm Hbad. rewrite Hdm. unfold relayFromDm.
    destruct (info st s) as [[c|c pid]|]; try done.
    destruct (sessions st !! c) as [x|]; [|done].
    destruct (field "payload" message) as [payload|]; [|done].
    unfold structured in Hbad.
    destruct (truthy (Some payload)), (isObject (Some payload)); done.
  - intros Hi. rewrite Hi. simpl. unfold relayFromPlayer. by rewrite Hi.
  - intros c pid x Hi Hx Ho Hbad. rewrite Hi. simpl.
    unfold relayFromPlayer. rewrite Hi, Hx, Ho. simpl.
    destruct (field "payload" message) as [payload|]; [|done]. by rewrite Hbad.
  - intros c pid Hi Hgone. rewrite Hi. simpl.
    assert (relayFromPlayer s message st = sessionUnavailable s st) as ->.
    { unfold relayFromPlayer. rewrite Hi.
      destruct Hgone as [->|(x & -> & ->)]; done. }
    apply (sessionUnavailable_effect st s c pid Hi).
    intros x Hx. destruct Hgone as [E|(x' & E & Hd)]; congruence.
Qed.

(** Three runs: a participant with an open host sends a string as
    payload; a participant whose host is closing sends no payload; a
    host that has joined its own session, and so is bound to a code
    that is no longer registered, sends an object. *)
Lemma relay_malformed_dropped_witness :
  (let st := run hosted_session initial in
   onMessage 1 1003 (Some (JObj [("type", JStr "relay"); ("payload", JStr "ping")])) st = st)
  ∧ (let st := run host_closing initial in
     let st' := onMessage 1 1003 (Some (JObj [("type", JStr "relay")])) st in
     outbox st' = outbox st ++ (if is_open st 1 then [(1, SessionClosed None)] else [])
     ∧ info st' 1 = None ∧ is_open st' 1 = false)
  ∧ (let st := run own_session_joined initial in
     let st' := onMessage 0 1003
                  (Some (JObj [("type", JStr "relay"); ("payload", JObj [])])) st in
     outbox st' = outbox st ++ (if is_open st 0 then [(0, SessionClosed None)] else [])
     ∧ info st' 0 = None ∧ is_open st' 0 = false).
Proof.
  split; [|split].
  - apply (relay_malformed_dropped (run hosted_session initial) 1 1003
             (JObj [("type", JStr "relay"); ("payload", JStr "ping")]) eq_refl)
      with (c := "ABC") (pid := "c-rt-1") (x := mkSession "ABC" 0 [("c-rt-1", 1)]);
      vm_compute; reflexivity.
  - destruct (relay_malformed_dropped (run host_closing initial) 1 1003
                (JObj [("type", JStr "relay")]) eq_refl) as (_ & _ & _ & H).
    destruct (H "ABC" "c-rt-1") as (H1 & H2 & H3 & _).
    + vm_compute. reflexivity.
    + right. exists (mkSession "ABC" 0 [("c-rt-1", 1)]). vm_compute. split; reflexivity.
    + repeat split; assumption.
  - destruct (relay_malformed_dropped (run own_session_joined initial) 0 1003
                (JObj [("type", JStr "relay"); ("payload", JObj [])]) eq_refl)
      as (_ & _ & _ & H).
    destruct (H "ABC" "c-ru-2") as (H1 & H2 & H3 & _).
    + vm_compute. reflexivity.
    + left. vm_compute. reflexivity.
    + repeat split; assumption.
Defined.

(** C9 (as stated) fails: a participant whose host is closing sends a
    relay without a payload; it is sent [session-closed], unbound,
    removed from its session and closed. *)
Lemma relay_without_payload_tears_down :
  let st := run host_closing initial in
  let st' := onMessage 1 1003 (msg "relay" []) st in
  info st 1 = Some (RolePlayer "ABC" "c-rt-1")
  ∧ info st' 1 = None
  ∧ outbox st' = outbox st ++ [(1, SessionClosed None)]
  ∧ sessions st !! "ABC" = Some (mkSession "ABC" 0 [("c-rt-1", 1)])
  ∧ sessions st' !! "ABC" = Some (mkSession "ABC" 0 [])
  ∧ is_open st 1 = true ∧ is_open st' 1 = false.
Proof. vm_compute. repeat split; reflexivity. Qed.

(** The payload test of [relayFromPlayer] lets [null] through, which
    the test of [relayFromDm] stops: the host is sent a relay frame
    whose payload is [null]. *)
Example relayFromPlayer_null_payload :
  let st := run hosted_session initial in
  let message := JObj [("type", JStr "relay"); ("payload", JNull)] in
  structured (field "payload" message) = false
  ∧ outbox (relayFromPlayer 1 message st)
    = outbox st ++ [(0, Relay (Some "c-rt-1") JNull)].
Proof. vm_compute. split; reflexivity. Qed.

(** ** Normalization of session codes *)

Section normalization.
Implicit Types (l ws : list ascii) (c : ascii).

Lemma isSpace_upperChar c : isSpace (upperChar c) = isSpace c.
Proof. by destruct c as [[] [] [] [] [] [] [] []]. Qed.

Lemma upperChar_idemp c : upperChar (upperChar c) = upperChar c.
Proof. by destruct c as [[] [] [] [] [] [] [] []]. Qed.

Lemma trimStart_upper l : trimStart (map upperChar l) = map upperChar (trimStart l).
Proof.
  induction l as [|c l IH]; [done|]. simpl. rewrite isSpace_upperChar.
  by destruct (isSpace c).
Qed.

Lemma trimStart_spaces ws l :
  Forall (λ c, isSpace c = true) ws → trimStart (ws ++ l) = trimStart l.
Proof. induction 1 as [|c ws Hc _ IH]; [done|]. simpl. by rewrite Hc. Qed.

Lemma trimStart_nil_iff l : trimStart l = [] ↔ Forall (λ c, isSpace c = true) l.
Proof.
  induction l as [|c l IH]; simpl.
  - split; [constructor | done].
  - destruct (isSpace c) eqn:Hc.
    + rewrite IH. split; [by constructor | by inversion 1].
    + split; [done | inversion 1; congruence].
Qed.

(** Trimming the start of a text that continues with white space. *)
Lemma trimStart_app_spaces l ws :
  Forall (λ c, isSpace c = true) ws →
  trimStart (l ++ ws) = match trimStart l with [] => [] | _ => trimStart l ++ ws end.
Proof.
  intros Hws. induction l as [|c l IH]; simpl.
  - by apply trimStart_nil_iff.
  - destruct (isSpace c); [done|done].
Qed.

Lemma trimStart_idemp l : trimStart (trimStart l) = trimStart l.
Proof.
  induction l as [|c l IH]; [done|]. simpl.
  destruct (isSpace c) eqn:Hc; [done|]. simpl. by rewrite Hc.
Qed.

(** What [trim] does to the characters of a string. *)
Lemma trim_chars (s : string) :
  list_ascii_of_string (trim s)
  = rev (trimStart (rev (trimStart (list_ascii_of_string s)))).
Proof. unfold trim. by rewrite list_ascii_of_string_of_list_ascii. Qed.

(** Removing white space at the end never uncovers white space at the
    start. *)
Lemma trimStart_trimEnd l :
  trimStart l = l → trimStart (rev (trimStart (rev l))) = rev (trimStart (rev l)).
Proof.
  intros Hl. destruct l as [|c l]; [done|].
  assert (isSpace c = false) as Hc.
  { simpl in Hl. destruct (isSpace c) eqn:E; [|done].
    assert (List.length (trimStart l) ≤ List.length l)%nat as Hlen.
    { clear. induction l as [|d l IH]; simpl; [done|]. destruct (isSpace d); simpl; lia. }
    rewrite Hl in Hlen. simpl in Hlen. lia. }
  simpl rev.
  assert (trimStart (rev l ++ [c]) = match trimStart (rev l) with
                                       | [] => [c] | _ => trimStart (rev l) ++ [c] end) as ->.
  { generalize (rev l) as m. intros m. induction m as [|d m IH]; simpl.
    - by rewrite Hc.
    - by destruct (isSpace d). }
  destruct (trimStart (rev l)) as [|d m] eqn:E.
  - simpl. by rewrite Hc.
  - rewrite rev_app_distr. simpl. by rewrite Hc.
Qed.

Lemma normalizeCode_chars (s : string) :
  normalizeCode (Some (JStr s))
  = string_of_list_ascii (normalizeChars (list_ascii_of_string s)).
Proof. simpl. unfold toUpperCase. by rewrite trim_chars. Qed.

Lemma normalizeChars_upper l :
  normalizeChars l = rev (trimStart (rev (trimStart (map upperChar l)))).
Proof.
  unfold normalizeChars.
  by rewrite trimStart_upper, <- map_rev, trimStart_upper, map_rev.
Qed.

Lemma normalizeChars_idemp l : normalizeChars (normalizeChars l) = normalizeChars l.
Proof.
  rewrite (normalizeChars_upper (normalizeChars l)). unfold normalizeChars at 1.
  rewrite map_map. erewrite map_ext by apply upperChar_idemp.
  fold (normalizeChars l). rewrite normalizeChars_upper.
  set (m := trimStart (map upperChar l)).
  rewrite (trimStart_trimEnd m) by apply trimStart_idemp.
  by rewrite rev_involutive, trimStart_idemp.
Qed.

Lemma normalizeChars_nil_iff l : normalizeChars l = [] ↔ blank l.
Proof.
  unfold normalizeChars, blank. rewrite <- trimStart_nil_iff. split.
  - intros E. apply map_eq_nil in E. apply (f_equal (@rev ascii)) in E.
    rewrite rev_involutive in E. simpl in E.
    apply trimStart_nil_iff, Forall_rev in E. rewrite rev_involutive in E.
    apply trimStart_nil_iff in E. by rewrite trimStart_idemp in E.
  - by intros ->.
Qed.

Lemma normalizeChars_padded ws l ws' :
  blank ws → blank ws' → normalizeChars (ws ++ l ++ ws') = normalizeChars l.
Proof.
  intros Hws Hws'. unfold normalizeChars. f_equal. f_equal.
  rewrite trimStart_spaces by done. rewrite trimStart_app_spaces by done.
  destruct (trimStart l) as [|c m] eqn:E; [done|].
  rewrite rev_app_distr. apply trimStart_spaces. by apply Forall_rev.
Qed.

Lemma normalizeCode_normal (value : option json) :
  normalizeCode (Some (JStr (normalizeCode value))) = normalizeCode value.
Proof.
  destruct value as [[| | |s| |]|]; try done.
  rewrite (normalizeCode_chars (normalizeCode _)), (normalizeCode_chars s).
  by rewrite list_ascii_of_string_of_list_ascii, normalizeChars_idemp.
Qed.

(** X1: normalizing a normalized code changes nothing, so the code a
    session is stored under and echoed with is accepted as it is. *)
Theorem normalizeCode_idempotent (value : option json) :
  normalizeCode (Some (JStr (normalizeCode value))) = normalizeCode value.
Proof. apply normalizeCode_normal. Qed.

(** X2: two codes that differ only in the case of ASCII letters and in
    ASCII white space around them normalize to the same code. *)
Theorem normalizeCode_insensitive (ws l1 ws' l2 : list ascii) :
  blank ws → blank ws' → map upperChar l1 = map upperChar l2 →
  normalizeCode (Some (JStr (string_of_list_ascii (ws ++ l1 ++ ws'))))
  = normalizeCode (Some (JStr (string_of_list_ascii l2))).
Proof.
  intros Hws Hws' Hcase. rewrite !normalizeCode_chars.
  rewrite !list_ascii_of_string_of_list_ascii, normalizeChars_padded by done.
  by rewrite (normalizeChars_upper l1), (normalizeChars_upper l2), Hcase.
Qed.

Lemma normalizeCode_insensitive_witness :
  normalizeCode (Some (JStr (string_of_list_ascii
    ([" "; "009"] ++ ["a"; "b"; "C"; "1"; "2"] ++ [" "])%char)))
  = normalizeCode (Some (JStr "Abc12")).
Proof.
  apply (normalizeCode_insensitive [" "; "009"]%char
           ["a"; "b"; "C"; "1"; "2"]%char [" "]%char ["A"; "b"; "c"; "1"; "2"]%char).
  - repeat constructor.
  - repeat constructor.
  - reflexivity.
Defined.

(** X3: a value that is missing, is not a string, or is a string of
    ASCII white space only normalizes to the empty code, the one the
    handlers refuse; and among the values whose text is ASCII, these
    are the only ones that do. *)
Theorem normalizeCode_empty_iff (value : option json) :
  ((∀ s, value = Some (JStr s) → blank (list_ascii_of_string s)) →
     normalizeCode value = "")
  ∧ ((∀ s, value = Some (JStr s) → asciiText (list_ascii_of_string s)) →
     normalizeCode value = "" →
     ∀ s, value = Some (JStr s) → blank (list_ascii_of_string s)).
Proof.
  destruct value as [[| | |s| |]|]; try (split; [done | by intros _ _ ? [=]]).
  rewrite normalizeCode_chars. split.
  - intros H. by rewrite (proj2 (normalizeChars_nil_iff _) (H s eq_refl)).
  - intros _ E s' [= <-]. apply normalizeChars_nil_iff.
    apply (f_equal list_ascii_of_string) in E.
    by rewrite list_ascii_of_string_of_list_ascii in E.
Qed.

Lemma normalizeCode_empty_iff_witness :
  normalizeCode (Some (JStr "  ")) = ""
  ∧ (normalizeCode (Some (JStr "  ")) = "" →
     ∀ s, Some (JStr "  ") = Some (JStr s) → blank (list_ascii_of_string s)).
Proof.
  split.
  - apply (proj1 (normalizeCode_empty_iff (Some (JStr "  ")))).
    intros s [= <-]. repeat constructor.
  - apply (proj2 (normalizeCode_empty_iff (Some (JStr "  ")))).
    intros s [= <-]. repeat constructor.
Defined.
End normalization.

(** ** Joining *)

Section joining.
Implicit Types (st : State) (s t : SocketRef) (l : list (string * SocketRef)).

Lemma players_get_None pid l : (∀ t, (pid, t) ∉ l) → players_get pid l = None.
Proof.
  induction l as [|[k v] l IH]; intros Hno; simpl; [done|].
  case_decide as E.
  - subst k. destruct (Hno v). by left.
  - apply IH. intros t Ht. apply (Hno t). by right.
Qed.

Lemma players_set_fresh pid s l :
  players_get pid l = None → players_set pid s l = l ++ [(pid, s)].
Proof.
  induction l as [|[k v] l IH]; simpl; [done|].
  case_decide; [done|]. intros E. by rewrite IH.
Qed.

Lemma players_get_set_eq pid s l : players_get pid (players_set pid s l) = Some s.
Proof.
  induction l as [|[k v] l IH]; simpl.
  - by rewrite decide_True.
  - case_decide as E; simpl; [by rewrite decide_True | by rewrite decide_False].
Qed.

Lemma players_get_set_ne pid k s l :
  k ≠ pid → players_get k (players_set pid s l) = players_get k l.
Proof.
  intros Hne. induction l as [|[k' v] l IH]; simpl.
  - by rewrite decide_False.
  - case_decide as E; simpl.
    + subst k'. by rewrite !decide_False.
    + case_decide; [done | apply IH].
Qed.

Lemma alter_present {A} (f : A → A) (c : string) (m : gmap string A) x :
  m !! c = Some x → alter f c m = <[c := f x]> m.
Proof.
  intros Hx. apply map_eq. intros k. rewrite lookup_alter, lookup_insert.
  case_decide; [subst; by rewrite Hx | done].
Qed.

Lemma detachClient_unbound s r silent st : info st s = None → detachClient s r silent st = st.
Proof. intros E. unfold detachClient. by rewrite E. Qed.

(** Detaching a registered participant without closing it. *)
Lemma detachClient_participant s r c pid x st :
  info st s = Some (RolePlayer c pid) →
  sessions st !! c = Some x →
  players_get pid (players x) = Some s →
  detachClient s r true st =
  setInfo s None
    (let st1 := setSessions (<[c := withPlayers (players_delete pid) x]> (sessions st)) st in
     if is_open st (dm x) then safeSend (dm x) (PlayerLeft pid) st1 else st1).
Proof.
  intros Hi Hx Hreg. unfold detachClient. rewrite Hi. simpl.
  by rewrite Hx, decide_True, is_open_setSessions.
Qed.

Lemma handleJoinSession_refused st s now message :
  let c := normalizeCode (field "code" message) in
  (c = "" ∨ sessions st !! c = None
   ∨ ∃ x, sessions st !! c = Some x ∧ is_open st (dm x) = false) →
  handleJoinSession s now message st
  = safeSend s (SessionError (if decide (c = "") then msgInvalidJoin
                              else msgSessionNotFound)) st.
Proof.
  intros c H. unfold handleJoinSession. fold c. case_decide; [done|].
  destruct H as [?|[->|(x & -> & ->)]]; done.
Qed.

(** X4: a join that is refused, for an empty code, an unknown code or a
    host that is not open, only sends the notice: the requester keeps
    the binding it had, the table and every socket are untouched and no
    participant id is used up. *)
Theorem handleJoinSession_rejected st s now message :
  let c := normalizeCode (field "code" message) in
  (c = "" ∨ sessions st !! c = None
   ∨ ∃ x, sessions st !! c = Some x ∧ is_open st (dm x) = false) →
  let st' := handleJoinSession s now message st in
  st' = safeSend s (SessionError (if decide (c = "") then msgInvalidJoin
                                  else msgSessionNotFound)) st
  ∧ sessions st' = sessions st
  ∧ sockets st' = sockets st
  ∧ clientCounter st' = clientCounter st.
Proof.
  intros c H st'.
  assert (st' = safeSend s (SessionError (if decide (c = "") then msgInvalidJoin
                                          else msgSessionNotFound)) st) as ->.
  { by apply handleJoinSession_refused. }
  rewrite sessions_safeSend, clientCounter_safeSend. repeat split.
  unfold safeSend. by case (is_open st s).
Qed.

Lemma handleJoinSession_rejected_witness :
  let st := run hosted_session initial in
  let message := JObj [("type", JStr "join-session"); ("code", JStr "nope")] in
  let st' := handleJoinSession 1 1002 message st in
  st' = safeSend 1 (SessionError (if decide ("NOPE" = "") then msgInvalidJoin
                                  else msgSessionNotFound)) st
  ∧ sessions st' = sessions st
  ∧ sockets st' = sockets st
  ∧ clientCounter st' = clientCounter st.
Proof.
  apply (handleJoinSession_rejected (run hosted_session initial) 1 1002
           (JObj [("type", JStr "join-session"); ("code", JStr "nope")])).
  right; left. vm_compute. reflexivity.
Defined.

(** X5: a successful join by an unbound socket appends the socket to
    the players of the session under a new id, binds it, advances the
    counter by one and writes [session-joined] to the requester (if it
    is open) and then [player-joined] to the host; no other session and
    no other socket changes. *)
Theorem handleJoinSession_registers st s now message x :
  reachable st →
  let c := normalizeCode (field "code" message) in
  info st s = None → sessions st !! c = Some x → is_open st (dm x) = true →
  let pid := clientId now (clientCounter st + 1) in
  let st' := handleJoinSession s now message st in
  sessions st' = <[c := mkSession (code x) (dm x) (players x ++ [(pid, s)])]> (sessions st)
  ∧ info st' s = Some (RolePlayer c pid)
  ∧ (∀ t, t ≠ s → sock st' t = sock st t)
  ∧ clientCounter st' = (clientCounter st + 1)%N
  ∧ outbox st' = outbox st
      ++ (if is_open st s then [(s, SessionJoined c pid)] else [])
      ++ [(dm x, PlayerJoined pid)].
Proof.
  intros Hr c Hi Hx Ho pid st'.
  destruct (reachable_Inv _ Hr) as [Hk _ [_ Hp]]. destruct (Hk _ _ Hx) as [_ Hne].
  unfold st'. rewrite (handleJoinSession_success s now message st x) by done.
  fold c pid. rewrite (detachClient_unbound s None true st Hi).
  assert (players_set pid s (players x) = players x ++ [(pid, s)]) as Hset.
  { apply players_set_fresh, players_get_None. intros t Hin.
    exact (issued_fresh _ _ now (Hp _ _ _ _ Hx Hin) eq_refl). }
  repeat split.
  - rewrite !sessions_safeSend. simpl. rewrite (alter_present _ _ _ x) by done.
    unfold withPlayers. by rewrite Hset.
  - by rewrite !info_safeSend, info_setInfo, decide_True.
  - intros t Hts. rewrite !sock_safeSend. unfold setInfo. rewrite sock_updSock.
    by rewrite decide_False.
  - by rewrite !clientCounter_safeSend.
  - rewrite !outbox_safeSend, !is_open_safeSend, !is_open_setInfo. simpl.
    change (is_open (setSessions _ _) ?t) with (is_open st t).
    by rewrite Ho, <- app_assoc.
Qed.

Lemma handleJoinSession_registers_witness :
  let st := run (hosted_session ++ [EvConnection 2]) initial in
  let message := JObj [("type", JStr "join-session"); ("code", JStr "abc")] in
  let x := mkSession "ABC" 0 [("c-rt-1", 1)] in
  let pid := clientId 1002 (clientCounter st + 1) in
  let st' := handleJoinSession 2 1002 message st in
  sessions st' = <["ABC" := mkSession (code x) (dm x) (players x ++ [(pid, 2)])]> (sessions st)
  ∧ info st' 2 = Some (RolePlayer "ABC" pid)
  ∧ (∀ t, t ≠ 2 → sock st' t = sock st t)
  ∧ clientCounter st' = (clientCounter st + 1)%N
  ∧ outbox st' = outbox st
      ++ (if is_open st 2 then [(2, SessionJoined "ABC" pid)] else [])
      ++ [(dm x, PlayerJoined pid)].
Proof.
  apply (handleJoinSession_registers (run (hosted_session ++ [EvConnection 2]) initial)
           2 1002 (JObj [("type", JStr "join-session"); ("code", JStr "abc")])
           (mkSession "ABC" 0 [("c-rt-1", 1)]) (reachable_run _));
    vm_compute; reflexivity.
Defined.
End joining.

Section rebinding.
Implicit Types (st : State) (s t : SocketRef).

Lemma players_set_self pid s (l : list (string * SocketRef)) :
  (pid, s) ∈ players_set pid s l.
Proof.
  induction l as [|[k v] l IH]; simpl; [by left|].
  case_decide; [subst; by left | by right].
Qed.

Lemma players_delete_gone pid t (l : list (string * SocketRef)) :
  (pid, t) ∉ players_delete pid l.
Proof. by intros [? _]%list_elem_of_filter. Qed.

(** X6: when a registered participant joins a session, the same or
    another, both sessions are registered afterwards; the one it leaves
    holds no entry under its old id, the one it joins holds the socket
    under the new id, and the socket is bound under the new id and as
    open as it was.  The frames this join writes are, in order,
    [player-left] with the old id to the host it leaves (if open),
    [session-joined] to the socket (if open) and [player-joined] to the
    host it joins. *)
Theorem handleJoinSession_moves_participant st s now message x c0 pid0 x0 :
  reachable st →
  let c := normalizeCode (field "code" message) in
  info st s = Some (RolePlayer c0 pid0) →
  sessions st !! c0 = Some x0 →
  players_get pid0 (players x0) = Some s →
  sessions st !! c = Some x → is_open st (dm x) = true →
  let pid := clientId now (clientCounter st + 1) in
  let st' := handleJoinSession s now message st in
  info st' s = Some (RolePlayer c pid)
  ∧ is_open st' s = is_open st s
  ∧ (∃ x0', sessions st' !! c0 = Some x0' ∧ dm x0' = dm x0
       ∧ ∀ t, (pid0, t) ∉ players x0')
  ∧ (∃ x', sessions st' !! c = Some x' ∧ dm x' = dm x ∧ (pid, s) ∈ players x')
  ∧ outbox st' = outbox st
      ++ (if is_open st (dm x0) then [(dm x0, PlayerLeft pid0)] else [])
      ++ (if is_open st s then [(s, SessionJoined c pid)] else [])
      ++ [(dm x, PlayerJoined pid)].
Proof.
  intros Hr c Hi Hx0 Hreg Hx Ho pid st'.
  destruct (reachable_Inv _ Hr) as [Hk _ [Hb _]]. destruct (Hk _ _ Hx) as [_ Hne].
  assert (pid0 ≠ pid) as Hfresh by exact (issued_fresh _ _ now (Hb _ _ _ Hi)).
  unfold st'. rewrite (handleJoinSession_success s now message st x) by done.
  fold c pid. rewrite (detachClient_participant s None c0 pid0 x0 st) by done.
  set (gone := setSessions (<[c0 := withPlayers (players_delete pid0) x0]> (sessions st)) st).
  set (st1 := setInfo s None (if is_open st (dm x0)
                              then safeSend (dm x0) (PlayerLeft pid0) gone else gone)).
  assert (sessions st1 = <[c0 := withPlayers (players_delete pid0) x0]> (sessions st)) as Hs1.
  { unfold st1. simpl. case (is_open st (dm x0)); [by rewrite sessions_safeSend | done]. }
  assert (∀ t, is_open st1 t = is_open st t) as Hopen1.
  { intros t. unfold st1. rewrite is_open_setInfo.
    case (is_open st (dm x0)); [by rewrite is_open_safeSend | done]. }
  assert (outbox st1 = outbox st
            ++ (if is_open st (dm x0) then [(dm x0, PlayerLeft pid0)] else [])) as Hout1.
  { unfold st1. cbn [outbox setInfo updSock]. destruct (is_open st (dm x0)) eqn:E.
    - rewrite outbox_safeSend. change (is_open gone ?t) with (is_open st t). by rewrite E.
    - by rewrite app_nil_r. }
  split; [|split; [|split; [|split]]].
  - by rewrite !info_safeSend, info_setInfo, decide_True.
  - rewrite !is_open_safeSend, is_open_setInfo.
    change (is_open st1 s = is_open st s). apply Hopen1.
  - rewrite !sessions_safeSend. cbn [sessions setSessions setInfo updSock].
    rewrite Hs1. destruct (decide (c = c0)) as [Ec|Ec].
    + eexists. split; [|split].
      * rewrite lookup_alter, decide_True by done. rewrite <- Ec, lookup_insert_eq. done.
      * done.
      * intros t. simpl. intros [Hin|[= ? ?]]%players_set_elem; [|done].
        by apply players_delete_gone in Hin.
    + exists (withPlayers (players_delete pid0) x0). split; [|split].
      * rewrite lookup_alter, decide_False by done. by rewrite lookup_insert_eq.
      * done.
      * intros t. apply players_delete_gone.
  - rewrite !sessions_safeSend. cbn [sessions setSessions setInfo updSock].
    rewrite Hs1, lookup_alter, decide_True by done.
    destruct (decide (c0 = c)) as [Ec|Ec].
    + rewrite Ec, lookup_insert_eq. eexists. split; [done|]. split.
      * simpl. rewrite Ec in Hx0. congruence.
      * apply players_set_self.
    + rewrite lookup_insert_ne, Hx by done. eexists. split; [done|]. split; [done|].
      apply players_set_self.
  - rewrite !outbox_safeSend, !is_open_safeSend, !is_open_setInfo.
    cbn [outbox setSessions setInfo updSock].
    change (is_open (setSessions _ _) ?t) with (is_open st1 t).
    by rewrite !Hopen1, Ho, Hout1, <- !app_assoc.
Qed.

Lemma handleJoinSession_moves_participant_witness :
  let st := run (hosted_session ++
      [ EvConnection 2; EvMessage 2 1002 (msg "create-session" [("code", JStr "xyz")]) ])
      initial in
  let message := JObj [("type", JStr "join-session"); ("code", JStr "xyz")] in
  let pid := clientId 1003 (clientCounter st + 1) in
  let st' := handleJoinSession 1 1003 message st in
  info st' 1 = Some (RolePlayer "XYZ" pid)
  ∧ is_open st' 1 = is_open st 1
  ∧ (∃ x0', sessions st' !! "ABC" = Some x0' ∧ dm x0' = 0
       ∧ ∀ t, ("c-rt-1", t) ∉ players x0')
  ∧ (∃ x', sessions st' !! "XYZ" = Some x' ∧ dm x' = 2 ∧ (pid, 1) ∈ players x')
  ∧ outbox st' = outbox st
      ++ (if is_open st 0 then [(0, PlayerLeft "c-rt-1")] else [])
      ++ (if is_open st 1 then [(1, SessionJoined "XYZ" pid)] else [])
      ++ [(2, PlayerJoined pid)].
Proof.
  apply (handleJoinSession_moves_participant
           (run (hosted_session ++
              [ EvConnection 2; EvMessage 2 1002 (msg "create-session" [("code", JStr "xyz")]) ])
              initial)
           1 1003 (JObj [("type", JStr "join-session"); ("code", JStr "xyz")])
           (mkSession "XYZ" 2 []) "ABC" "c-rt-1" (mkSession "ABC" 0 [("c-rt-1", 1)])
           (reachable_run _)); vm_compute; reflexivity.
Defined.

(** X7: a host that joins its own session ends it: the session leaves
    the table, its participants are unbound, and the host is left bound
    as participant of a code that is no longer registered. *)
Theorem handleJoinSession_own_session st s now message x :
  reachable st →
  let c := normalizeCode (field "code" message) in
  info st s = Some (RoleDm c) → sessions st !! c = Some x → is_open st s = true →
  let pid := clientId now (clientCounter st + 1) in
  let st' := handleJoinSession s now message st in
  sessions st' = delete c (sessions st)
  ∧ info st' s = Some (RolePlayer c pid)
  ∧ (∀ t, t ∈ (players x).*2 → t ≠ s → info st' t = None).
Proof.
  intros Hr c Hi Hx Ho pid st'.
  destruct (reachable_Inv _ Hr) as [Hk Hh _]. destruct (Hk _ _ Hx) as [Hcode Hne].
  destruct (Hh _ _ Hi) as (x' & Hx' & Hd). rewrite Hx in Hx'. injection Hx' as <-.
  unfold st'. rewrite (handleJoinSession_success s now message st x) by (by rewrite ?Hd).
  fold c pid.
  assert (detachClient s None true st
          = setInfo s None (endSession x "The DM disconnected." st)) as ->.
  { unfold detachClient. rewrite Hi. simpl. by rewrite Hx, decide_True. }
  repeat split.
  - rewrite !sessions_safeSend. simpl. rewrite endSession_sessions, Hcode.
    apply map_eq. intros k. rewrite lookup_alter. case_decide; [|done].
    subst k. by rewrite lookup_delete_eq.
  - by rewrite !info_safeSend, info_setInfo, decide_True.
  - intros t Ht Hts. rewrite !info_safeSend, info_setInfo, decide_False by done.
    change (info (setInfo s None (endSession x "The DM disconnected." st)) t = None).
    rewrite info_setInfo, decide_False by done.
    by rewrite endSession_info, decide_True.
Qed.

Lemma handleJoinSession_own_session_witness :
  let st := run hosted_session initial in
  let message := JObj [("type", JStr "join-session"); ("code", JStr "abc")] in
  let pid := clientId 1002 (clientCounter st + 1) in
  let st' := handleJoinSession 0 1002 message st in
  sessions st' = delete "ABC" (sessions st)
  ∧ info st' 0 = Some (RolePlayer "ABC" pid)
  ∧ (∀ t, t ∈ [("c-rt-1", 1)].*2 → t ≠ 0 → info st' t = None).
Proof.
  apply (handleJoinSession_own_session (run hosted_session initial) 0 1002
           (JObj [("type", JStr "join-session"); ("code", JStr "abc")])
           (mkSession "ABC" 0 [("c-rt-1", 1)]) (reachable_run _));
    vm_compute; reflexivity.
Defined.

(** X8: a session can be joined with the code its creation echoed.
    After a successful create, the requester (if open) has been sent
    [session-created] with the normalized code, and a join by another,
    unbound socket that sends that code back registers it as the only
    participant and announces it to the host. *)
Theorem create_then_join_with_echo st s1 m1 s2 now :
  let c := normalizeCode (field "code" m1) in
  c ≠ "" → isDm (info st s1) = false → sessions st !! c = None →
  is_open st s1 = true → s2 ≠ s1 → info st s2 = None →
  let st1 := handleCreateSession s1 m1 st in
  let pid := clientId now (clientCounter st + 1) in
  let st2 := handleJoinSession s2 now (JObj [("type", JStr "join-session"); ("code", JStr c)]) st1 in
  outbox st1 = outbox st ++ [(s1, SessionCreated c)]
  ∧ sessions st2 !! c = Some (mkSession c s1 [(pid, s2)])
  ∧ info st2 s2 = Some (RolePlayer c pid)
  ∧ info st2 s1 = Some (RoleDm c)
  ∧ outbox st2 = outbox st1
      ++ (if is_open st s2 then [(s2, SessionJoined c pid)] else [])
      ++ [(s1, PlayerJoined pid)].
Proof.
  intros c Hc Hdm Hfree Ho Hne Hi2 st1 pid st2.
  assert (st1 = safeSend s1 (SessionCreated c)
                  (setInfo s1 (Some (RoleDm c))
                     (setSessions (<[c := mkSession c s1 []]> (sessions st)) st))) as E1.
  { unfold st1, handleCreateSession. fold c. rewrite decide_False by done.
    rewrite Hdm, Hfree. rewrite decide_False; [done|]. by intros [? ?]. }
  assert (sessions st1 !! c = Some (mkSession c s1 [])) as Hreg.
  { rewrite E1, sessions_safeSend. simpl. by rewrite lookup_insert_eq. }
  assert (∀ t, is_open st1 t = is_open st t) as Hopen.
  { intros t. by rewrite E1, is_open_safeSend, is_open_setInfo. }
  assert (info st1 s2 = None) as Hi2'.
  { by rewrite E1, info_safeSend, info_setInfo, decide_False. }
  assert (normalizeCode (field "code" (JObj [("type", JStr "join-session"); ("code", JStr c)])) = c)
    as Hecho by apply normalizeCode_normal.
  unfold st2.
  rewrite (handleJoinSession_success s2 now _ st1 (mkSession c s1 []));
    rewrite ?Hecho; try done; [|by rewrite Hopen].
  rewrite (detachClient_unbound s2 None true st1 Hi2').
  assert (clientCounter st1 = clientCounter st) as -> by by rewrite E1, clientCounter_safeSend.
  fold pid. repeat split.
  - rewrite E1, outbox_safeSend, is_open_setInfo. simpl.
    change (is_open (setSessions _ _) ?t) with (is_open st t). by rewrite Ho.
  - rewrite !sessions_safeSend. simpl. by rewrite lookup_alter, decide_True, Hreg.
  - by rewrite !info_safeSend, info_setInfo, decide_True.
  - rewrite !info_safeSend, info_setInfo, decide_False by done.
    change (info st1 s1 = Some (RoleDm c)).
    by rewrite E1, info_safeSend, info_setInfo, decide_True.
  - rewrite !outbox_safeSend, !is_open_safeSend, !is_open_setInfo. simpl.
    change (is_open (setSessions _ ?a) ?t) with (is_open st1 t).
    by rewrite !Hopen, Ho, <- app_assoc.
Qed.

Lemma create_then_join_with_echo_witness :
  let st := run [EvConnection 0; EvConnection 1] initial in
  let m1 := JObj [("type", JStr "create-session"); ("code", JStr " abc ")] in
  let st1 := handleCreateSession 0 m1 st in
  let pid := clientId 1001 (clientCounter st + 1) in
  let st2 := handleJoinSession 1 1001
               (JObj [("type", JStr "join-session"); ("code", JStr "ABC")]) st1 in
  outbox st1 = outbox st ++ [(0, SessionCreated "ABC")]
  ∧ sessions st2 !! "ABC" = Some (mkSession "ABC" 0 [(pid, 1)])
  ∧ info st2 1 = Some (RolePlayer "ABC" pid)
  ∧ info st2 0 = Some (RoleDm "ABC")
  ∧ outbox st2 = outbox st1
      ++ (if is_open st 1 then [(1, SessionJoined "ABC" pid)] else [])
      ++ [(0, PlayerJoined pid)].
Proof.
  apply (create_then_join_with_echo (run [EvConnection 0; EvConnection 1] initial) 0
           (JObj [("type", JStr "create-session"); ("code", JStr " abc ")]) 1 1001);
    vm_compute; done.
Defined.
End rebinding.

(** ** What the handlers leave alone *)

Section keeping.
Implicit Types (st : State) (s t : SocketRef).

Lemma keeps_refl st : keeps st st.
Proof. by repeat split. Qed.

Lemma keeps_trans st1 st2 st3 : keeps st1 st2 → keeps st2 st3 → keeps st1 st3.
Proof.
  intros (Hc1 & Ha1 & Hd1) (Hc2 & Ha2 & Hd2). repeat split.
  - congruence.
  - intros s. by rewrite Ha2.
  - eauto.
Qed.

Lemma keeps_safeSend s fr st : keeps st (safeSend s fr st).
Proof.
  repeat split.
  - apply clients_safeSend.
  - intros t. by rewrite sock_safeSend.
  - intros t. unfold safeSend. by case (is_open st s).
Qed.

(** An update of one socket that keeps its flag. *)
Lemma keeps_updSock s f st :
  (∀ k, isAlive (f k) = isAlive k) → keeps st (updSock s f st).
Proof.
  intros Hf. repeat split.
  - intros t. rewrite sock_updSock. case_decide; [subst; apply Hf | done].
  - intros t Ht. simpl. rewrite lookup_insert. by case_decide.
Qed.

Lemma keeps_setInfo s i st : keeps st (setInfo s i st).
Proof. by apply keeps_updSock. Qed.

Lemma keeps_socketClose s st : keeps st (socketClose s st).
Proof. by apply keeps_updSock. Qed.

Lemma keeps_terminate s st : keeps st (terminate s st).
Proof. by apply keeps_updSock. Qed.

Lemma keeps_setSessions m st : keeps st (setSessions m st).
Proof. by repeat split. Qed.

Lemma keeps_endSession x r st : keeps st (endSession x r st).
Proof.
  unfold endSession. eapply keeps_trans; [apply (keeps_setSessions (delete (code x) (sessions st)))|].
  generalize (setSessions (delete (code x) (sessions st)) st) as st0.
  generalize (players x) as l. induction l as [|e l IH]; intros st0; [apply keeps_refl|].
  cbn [foldl]. eapply keeps_trans; [|apply IH]. unfold endSession_player.
  eapply keeps_trans; [apply keeps_safeSend|].
  eapply keeps_trans; [apply keeps_socketClose | apply keeps_setInfo].
Qed.

Lemma keeps_detachClient s r silent st : keeps st (detachClient s r silent st).
Proof.
  unfold detachClient. destruct (info st s) as [i|]; [|apply keeps_refl].
  assert (keeps st (detachRole s i r st)) as H1.
  { destruct i as [c|c pid]; simpl.
    - destruct (sessions st !! c) as [x|]; [|apply keeps_refl].
      case_decide; [apply keeps_endSession | apply keeps_refl].
    - destruct (sessions st !! c) as [x|]; [|apply keeps_refl].
      case_decide; [|apply keeps_refl].
      case (is_open _ _); [|apply keeps_setSessions].
      eapply keeps_trans; [apply keeps_setSessions | apply keeps_safeSend]. }
  assert (keeps st (setInfo s None (detachRole s i r st))) as H2.
  { eapply keeps_trans; [exact H1 | apply keeps_setInfo]. }
  case (negb silent && _); [|done].
  eapply keeps_trans; [exact H2 | apply keeps_socketClose].
Qed.

Lemma keeps_handleCreateSession s message st : keeps st (handleCreateSession s message st).
Proof.
  unfold handleCreateSession. case_decide; [apply keeps_safeSend|].
  case (isDm _); [apply keeps_safeSend|]. case_decide; [apply keeps_safeSend|].
  eapply keeps_trans; [apply keeps_setSessions|].
  eapply keeps_trans; [apply keeps_setInfo | apply keeps_safeSend].
Qed.

Lemma keeps_handleJoinSession s now message st : keeps st (handleJoinSession s now message st).
Proof.
  unfold handleJoinSession. case_decide; [apply keeps_safeSend|].
  destruct (sessions st !! _) as [x|]; [|apply keeps_safeSend].
  case (negb _); [apply keeps_safeSend|].
  set (st1 := match info st s with Some _ => detachClient s None true st | None => st end).
  assert (keeps st st1) as H1.
  { unfold st1. destruct (info st s); [apply keeps_detachClient | apply keeps_refl]. }
  unfold createClientId.
  eapply keeps_trans; [exact H1|].
  eapply keeps_trans; [|apply keeps_safeSend].
  eapply keeps_trans; [|apply keeps_safeSend].
  eapply keeps_trans; [|apply keeps_setInfo].
  by repeat split.
Qed.

Lemma keeps_relayFromPlayer s message st : keeps st (relayFromPlayer s message st).
Proof.
  unfold relayFromPlayer, sessionUnavailable.
  assert (keeps st (detachClient s (Some "Session unavailable.") false
                      (safeSend s (SessionClosed None) st))) as Hgone.
  { eapply keeps_trans; [apply keeps_safeSend | apply keeps_detachClient]. }
  destruct (info st s) as [[c|c pid]|]; try apply keeps_refl.
  destruct (sessions st !! c) as [x|]; [|done].
  case (negb _); [done|].
  destruct (field "payload" message) as [payload|]; [|apply keeps_refl].
  case (negb _); [apply keeps_refl | apply keeps_safeSend].
Qed.

Lemma keeps_relayFromDm s message st : keeps st (relayFromDm s message st).
Proof.
  unfold relayFromDm.
  destruct (info st s) as [[c|c pid]|]; try apply keeps_refl.
  destruct (sessions st !! c) as [x|]; [|apply keeps_refl].
  destruct (field "payload" message) as [payload|]; [|apply keeps_refl].
  case (_ || _); [apply keeps_refl|].
  destruct (targetId _) as [playerId|].
  - destruct (players_get _ _); [apply keeps_safeSend | apply keeps_refl].
  - rewrite broadcast_outbox. by repeat split.
Qed.

Lemma keeps_handleCloseSession s st : keeps st (handleCloseSession s st).
Proof.
  unfold handleCloseSession.
  destruct (info st s) as [[c|c pid]|]; try apply keeps_refl.
  destruct (sessions st !! c) as [x|]; [|apply keeps_refl].
  case_decide; [|apply keeps_refl].
  eapply keeps_trans; [apply keeps_endSession | apply keeps_setInfo].
Qed.

Lemma keeps_onMessage s now raw st : keeps st (onMessage s now raw st).
Proof.
  unfold onMessage. destruct raw as [message|]; [|apply keeps_refl].
  case (_ || _); [apply keeps_refl|].
  destruct (field "type" message) as [[| | |t| |]|]; try apply keeps_refl.
  repeat case_decide;
    auto using keeps_handleCreateSession, keeps_handleJoinSession,
      keeps_handleCloseSession, keeps_refl.
  case (isDm _); auto using keeps_relayFromDm, keeps_relayFromPlayer.
Qed.
End keeping.

(** ** The set of clients *)

Section clients_set.
Implicit Types (st : State) (s t : SocketRef).

Lemma clients_wf_kept st st' :
  clients st' = clients st →
  (∀ s, is_Some (sockets st !! s) → is_Some (sockets st' !! s)) →
  clients_wf st → clients_wf st'.
Proof. intros Hc Hd [Hnd Hin]. split; rewrite Hc; [done | eauto]. Qed.

Lemma clients_wf_keeps st st' : keeps st st' → clients_wf st → clients_wf st'.
Proof. intros (Hc & _ & Hd). by apply clients_wf_kept. Qed.

Lemma clients_wf_setAlive s b st : clients_wf st → clients_wf (setAlive s b st).
Proof.
  apply clients_wf_kept; [done|]. intros t Ht. simpl. rewrite lookup_insert. by case_decide.
Qed.

Lemma clients_wf_heartbeat_turn st s : clients_wf st → clients_wf (heartbeat_turn st s).
Proof.
  intros Hwf. unfold heartbeat_turn. case (negb _); [|by apply clients_wf_setAlive].
  revert Hwf. apply clients_wf_keeps.
  eapply keeps_trans; [apply keeps_detachClient | apply keeps_terminate].
Qed.

Lemma clients_heartbeat_turn st s : clients (heartbeat_turn st s) = clients st.
Proof.
  unfold heartbeat_turn. case (negb _); [|done].
  eapply keeps_trans; [apply keeps_detachClient | apply keeps_terminate].
Qed.

Lemma clients_heartbeat_fold l st : clients (foldl heartbeat_turn st l) = clients st.
Proof.
  revert st; induction l as [|s l IH]; intros st; [done|].
  cbn [foldl]. by rewrite IH, clients_heartbeat_turn.
Qed.

Lemma clients_wf_step ev st : clients_wf st → clients_wf (step ev st).
Proof.
  intros Hwf. destruct ev as [s | s now raw | s | s | s |]; simpl.
  - case_decide as Hnew; [|done]. destruct Hwf as [Hnd Hin]. split; simpl.
    + apply NoDup_app. repeat split; [done | | apply NoDup_singleton].
      intros t Ht ->%list_elem_of_singleton. apply Hin in Ht.
      rewrite Hnew in Ht. by destruct Ht.
    + intros t [Ht| ->%list_elem_of_singleton]%elem_of_app.
      * rewrite lookup_insert. case_decide; [by eexists | by apply Hin].
      * rewrite lookup_insert_eq. by eexists.
  - case (connected st s); [|done]. revert Hwf. apply clients_wf_keeps, keeps_onMessage.
  - case (connected st s); [by apply clients_wf_setAlive | done].
  - case (connected st s); [|done]. revert Hwf. apply clients_wf_keeps, keeps_socketClose.
  - case (connected st s); [|done]. unfold onClose.
    eapply clients_wf_keeps; [apply keeps_detachClient|].
    destruct Hwf as [Hnd Hin]. split; simpl.
    + by apply NoDup_filter.
    + intros t [_ Ht]%list_elem_of_filter. rewrite lookup_insert.
      case_decide; [by eexists | by apply Hin].
  - unfold heartbeatInterval. generalize (clients st) as l.
    intros l; revert st Hwf; induction l as [|s l IH]; intros st Hwf; [done|].
    cbn [foldl]. by apply IH, clients_wf_heartbeat_turn.
Qed.

Lemma reachable_clients_wf st : reachable st → clients_wf st.
Proof.
  induction 1; [|by apply clients_wf_step].
  split; [constructor | by intros s ?%elem_of_nil].
Qed.
End clients_set.

(** ** The heartbeat *)

Section heartbeat_sweep.
Implicit Types (st : State) (s t : SocketRef) (l : list SocketRef).

Lemma alive_heartbeat_turn st t s :
  isAlive (sock (heartbeat_turn st t) s)
  = if decide (t = s) then false else isAlive (sock st s).
Proof.
  unfold heartbeat_turn. destruct (isAlive (sock st t)) eqn:Ht; simpl.
  - unfold setAlive. rewrite sock_updSock. by case_decide.
  - assert (keeps st (terminate t (detachClient t (Some "Connection timed out.") true st)))
      as (_ & Ha & _).
    { eapply keeps_trans; [apply keeps_detachClient | apply keeps_terminate]. }
    rewrite Ha. case_decide; [by subst | done].
Qed.

Lemma alive_heartbeat_fold l st s :
  isAlive (sock (foldl heartbeat_turn st l) s)
  = if decide (s ∈ l) then false else isAlive (sock st s).
Proof.
  revert st; induction l as [|t l IH]; intros st.
  - by rewrite decide_False by apply not_elem_of_nil.
  - cbn [foldl]. rewrite IH, alive_heartbeat_turn.
    destruct (decide (s ∈ l)) as [Hin|Hnin].
    + by rewrite decide_True by (by right).
    + destruct (decide (t = s)) as [->|Hne].
      * by rewrite decide_True by (by left).
      * rewrite decide_False; [done|]. by intros [?|?]%elem_of_cons.
Qed.

(** X9: a heartbeat leaves the liveness flag of every client cleared,
    and touches the flag of no other socket: only a [pong] received
    before the next heartbeat sets a flag again. *)
Theorem heartbeatInterval_clears_flags st s :
  isAlive (sock (heartbeatInterval st) s)
  = if decide (s ∈ clients st) then false else isAlive (sock st s).
Proof. apply alive_heartbeat_fold. Qed.

Lemma heartbeat_fold_dead l st s :
  s ∈ l → isAlive (sock st s) = false →
  is_open (foldl heartbeat_turn st l) s = false ∧ info (foldl heartbeat_turn st l) s = None.
Proof.
  revert st; induction l as [|t l IH]; intros st Hin Hdead; [by apply elem_of_nil in Hin|].
  cbn [foldl]. destruct (decide (t = s)) as [->|Hne].
  - set (st1 := heartbeat_turn st s).
    assert (is_open st1 s = false ∧ info st1 s = None) as [Ho Hi].
    { unfold st1, heartbeat_turn. rewrite Hdead. simpl. split.
      - by rewrite is_open_terminate, decide_True.
      - by rewrite info_terminate, detachClient_unbinds. }
    destruct (shrinks_heartbeat_fold l st1) as (Hinfo & _ & _ & Hopen). split.
    + destruct (is_open (foldl heartbeat_turn st1 l) s) eqn:E; [|done].
      apply Hopen in E. congruence.
    + destruct (Hinfo s) as [E|E]; congruence.
  - apply IH.
    + by apply elem_of_cons in Hin as [?|?].
    + by rewrite alive_heartbeat_turn, decide_False.
Qed.

(** X10: two heartbeats in a row, with no [pong] in between, leave no
    client open and no client bound, whatever the state before. *)
Theorem heartbeatInterval_twice_terminates st s :
  s ∈ clients st →
  let st' := heartbeatInterval (heartbeatInterval st) in
  is_open st' s = false ∧ info st' s = None.
Proof.
  intros Hin st'. unfold st'. unfold heartbeatInterval at 1.
  assert (clients (heartbeatInterval st) = clients st) as Hc by apply clients_heartbeat_fold.
  apply heartbeat_fold_dead.
  - by rewrite Hc.
  - unfold heartbeatInterval. by rewrite alive_heartbeat_fold, decide_True.
Qed.

Lemma heartbeatInterval_twice_terminates_witness :
  let st' := heartbeatInterval (heartbeatInterval (run hosted_session initial)) in
  is_open st' 1 = false ∧ info st' 1 = None.
Proof.
  apply (heartbeatInterval_twice_terminates (run hosted_session initial) 1).
  vm_compute. apply list_elem_of_In. right; left; reflexivity.
Defined.

Lemma heartbeat_fold_responsive l st :
  NoDup l → (∀ s, s ∈ l → isAlive (sock st s) = true) →
  let st' := foldl heartbeat_turn st l in
  sessions st' = sessions st ∧ outbox st' = outbox st
  ∧ clientCounter st' = clientCounter st
  ∧ ∀ s, info st' s = info st s ∧ readyState (sock st' s) = readyState (sock st s).
Proof.
  revert st; induction l as [|t l IH]; intros st Hnd Halive; [done|].
  apply NoDup_cons in Hnd as [Hnotin Hnd]. cbn [foldl].
  assert (heartbeat_turn st t = setAlive t false st) as ->.
  { unfold heartbeat_turn. by rewrite Halive by (by left). }
  destruct (IH (setAlive t false st) Hnd) as (Hs & Ho & Hc & Hsock).
  { intros s Hs. unfold setAlive. rewrite sock_updSock.
    case_decide; [by subst | apply Halive; by right]. }
  repeat split; try done.
  - by rewrite (proj1 (Hsock s)), info_setAlive.
  - rewrite (proj2 (Hsock s)). unfold setAlive. rewrite sock_updSock.
    case_decide; by subst.
Qed.

(** X11: when every client has answered the last probe, a heartbeat
    tears nothing down and sends no frame: the session table, the
    outbox, the counter, every binding and every ready state are what
    they were. *)
Theorem heartbeatInterval_responsive st :
  reachable st →
  (∀ s, s ∈ clients st → isAlive (sock st s) = true) →
  let st' := heartbeatInterval st in
  sessions st' = sessions st ∧ outbox st' = outbox st
  ∧ clientCounter st' = clientCounter st
  ∧ ∀ s, info st' s = info st s ∧ readyState (sock st' s) = readyState (sock st s).
Proof.
  intros [Hnd _]%reachable_clients_wf Halive.
  by apply heartbeat_fold_responsive.
Qed.

Lemma heartbeatInterval_responsive_witness :
  let st := run hosted_session initial in
  let st' := heartbeatInterval st in
  sessions st' = sessions st ∧ outbox st' = outbox st
  ∧ clientCounter st' = clientCounter st
  ∧ ∀ s, info st' s = info st s ∧ readyState (sock st' s) = readyState (sock st s).
Proof.
  apply (heartbeatInterval_responsive (run hosted_session initial) (reachable_run _)).
  intros s Hs. vm_compute in Hs.
  apply list_elem_of_In in Hs as [<-|[<-|[]]]; reflexivity.
Defined.
End heartbeat_sweep.

(** ** Disconnects *)

Section disconnects.
Implicit Types (st : State) (s t : SocketRef).

(** The state in which the [close] callback starts. *)
Lemma onClose_unfold s st :
  onClose s st =
  detachClient s None true
    (mkState (sockets (setReady s CLOSED st)) (filter (λ c, c ≠ s) (clients st))
             (sessions st) (clientCounter st) (outbox st)).
Proof. done. Qed.

Lemma onClose_not_client s st : s ∉ clients (onClose s st).
Proof.
  rewrite onClose_unfold.
  destruct (keeps_detachClient s None true
    (mkState (sockets (setReady s CLOSED st)) (filter (λ c, c ≠ s) (clients st))
             (sessions st) (clientCounter st) (outbox st))) as (-> & _).
  simpl. by intros [? _]%list_elem_of_filter.
Qed.

(** X12: when the connection of a host closes, its session leaves the
    table, the host and every registered participant are unbound, the
    participants are closed, and each participant that was open is sent
    exactly one [session-closed] notice with the text "The DM
    disconnected."; the socket is no longer a client. *)
Theorem onClose_host st s c :
  reachable st → info st s = Some (RoleDm c) →
  ∃ x, sessions st !! c = Some x ∧
    let st' := onClose s st in
    sessions st' = delete c (sessions st)
    ∧ info st' s = None ∧ is_open st' s = false ∧ (s ∉ clients st')
    ∧ (∀ t, t ∈ (players x).*2 → info st' t = None ∧ is_open st' t = false)
    ∧ ∃ new, outbox st' = outbox st ++ new ∧ NoDup new
        ∧ ∀ e, e ∈ new ↔
            ∃ t, e = (t, SessionClosed (Some "The DM disconnected."))
                 ∧ t ∈ (players x).*2 ∧ t ≠ s ∧ is_open st t = true.
Proof.
  intros [Hk Hh _]%reachable_Inv Hi.
  destruct (Hh _ _ Hi) as (x & Hx & Hd). destruct (Hk _ _ Hx) as [Hcode _].
  exists x. split; [done|]. intros st'.
  pose proof (onClose_not_client s st) as Hnc. fold st' in Hnc.
  unfold st' in *. clear st'. rewrite onClose_unfold in *.
  set (st0 := mkState (sockets (setReady s CLOSED st)) (filter (λ c, c ≠ s) (clients st))
                      (sessions st) (clientCounter st) (outbox st)) in *.
  assert (∀ t, info st0 t = info st t) as Hinfo0.
  { intros t. change (info st0 t) with (info (setReady s CLOSED st) t). apply info_setReady. }
  assert (∀ t, is_open st0 t = if decide (s = t) then false else is_open st t) as Hopen0.
  { intros t. change (is_open st0 t) with (is_open (setReady s CLOSED st) t).
    apply is_open_setReady_closed. }
  assert (detachClient s None true st0
          = setInfo s None (endSession x "The DM disconnected." st0)) as E.
  { unfold detachClient. rewrite Hinfo0, Hi. simpl.
    change (sessions st0) with (sessions st). by rewrite Hx, decide_True. }
  rewrite E in *. repeat split.
  - cbn [sessions setInfo updSock]. by rewrite endSession_sessions, Hcode.
  - by rewrite info_setInfo, decide_True.
  - rewrite is_open_setInfo, endSession_open. case_decide; [done|].
    by rewrite Hopen0, decide_True.
  - done.
  - rewrite info_setInfo. case_decide; [done|]. by rewrite endSession_info, decide_True.
  - by rewrite is_open_setInfo, endSession_open, decide_True.
  - destruct (endSession_outbox x "The DM disconnected." st0) as (new & Hout & Hnd & Hnew).
    exists new. repeat split; try done.
    + intros (t & -> & Ht & Ho)%Hnew. rewrite Hopen0 in Ho.
      exists t. case_decide; [done|]. repeat split; try done; congruence.
    + intros (t & -> & Ht & Hne & Ho). apply Hnew. exists t. repeat split; try done.
      rewrite Hopen0. by rewrite decide_False by congruence.
Qed.

Lemma onClose_host_witness :
  ∃ x, sessions (run hosted_session initial) !! "ABC" = Some x ∧
    let st := run hosted_session initial in
    let st' := onClose 0 st in
    sessions st' = delete "ABC" (sessions st)
    ∧ info st' 0 = None ∧ is_open st' 0 = false ∧ (0 ∉ clients st')
    ∧ (∀ t, t ∈ (players x).*2 → info st' t = None ∧ is_open st' t = false)
    ∧ ∃ new, outbox st' = outbox st ++ new ∧ NoDup new
        ∧ ∀ e, e ∈ new ↔
            ∃ t, e = (t, SessionClosed (Some "The DM disconnected."))
                 ∧ t ∈ (players x).*2 ∧ t ≠ 0 ∧ is_open st t = true.
Proof.
  apply (onClose_host (run hosted_session initial) 0 "ABC" (reachable_run _)).
  vm_compute. reflexivity.
Defined.

(** X13: when the connection of a registered participant closes, its
    entry is removed from its session, it is unbound, and the host of
    the session is sent one [player-left] with its id if the host is
    open; nothing else is sent and no other socket changes. *)
Theorem onClose_participant st s c pid x :
  info st s = Some (RolePlayer c pid) →
  sessions st !! c = Some x →
  players_get pid (players x) = Some s →
  let st' := onClose s st in
  sessions st' = <[c := withPlayers (players_delete pid) x]> (sessions st)
  ∧ info st' s = None ∧ is_open st' s = false ∧ (s ∉ clients st')
  ∧ (∀ t, t ≠ s → sock st' t = sock st t)
  ∧ outbox st' = outbox st ++
      (if decide (dm x = s) then []
       else if is_open st (dm x) then [(dm x, PlayerLeft pid)] else []).
Proof.
  intros Hi Hx Hreg st'.
  unfold st'. clear st'. rewrite onClose_unfold.
  set (st0 := mkState (sockets (setReady s CLOSED st)) (filter (λ c, c ≠ s) (clients st))
                      (sessions st) (clientCounter st) (outbox st)).
  assert (∀ t, sock st0 t = sock (setReady s CLOSED st) t) as Hsock0 by done.
  assert (info st0 s = Some (RolePlayer c pid)) as Hi0.
  { change (info st0 s) with (info (setReady s CLOSED st) s). by rewrite info_setReady. }
  assert (is_open st0 (dm x) = if decide (dm x = s) then false else is_open st (dm x)) as Hopen0.
  { change (is_open st0 (dm x)) with (is_open (setReady s CLOSED st) (dm x)).
    rewrite is_open_setReady_closed. repeat case_decide; congruence. }
  rewrite (detachClient_participant s None c pid x st0) by done.
  rewrite Hopen0.
  set (st1 := setSessions (<[c := withPlayers (players_delete pid) x]> (sessions st0)) st0).
  assert (∀ t, sock st1 t = sock (setReady s CLOSED st) t) as Hsock1 by done.
  cbv zeta.
  assert (∀ st2, (∀ t, sock st2 t = sock (setReady s CLOSED st) t) →
            is_open (setInfo s None st2) s = false
            ∧ ∀ t, t ≠ s → sock (setInfo s None st2) t = sock st t) as Hrest.
  { intros st2 H2. split.
    - rewrite is_open_setInfo. unfold is_open. rewrite H2. unfold setReady.
      by rewrite sock_updSock, decide_True.
    - intros t Hts. unfold setInfo. rewrite sock_updSock, decide_False by done.
      rewrite H2. unfold setReady. by rewrite sock_updSock, decide_False. }
  assert (∀ st2, clients st2 = clients st0 → s ∉ clients (setInfo s None st2)) as Hcl.
  { intros st2 E. cbn [clients setInfo updSock]. rewrite E.
    by intros [? _]%list_elem_of_filter. }
  destruct (decide (dm x = s)) as [Hd|Hd]; [|destruct (is_open st (dm x)) eqn:Ho].
  - destruct (Hrest st1 Hsock1) as [? ?]. repeat split; try done.
    + by rewrite info_setInfo, decide_True.
    + by apply Hcl.
    + cbn [outbox setInfo updSock st1 setSessions st0]. by rewrite app_nil_r.
  - destruct (Hrest (safeSend (dm x) (PlayerLeft pid) st1)) as [? ?].
    { intros t. by rewrite sock_safeSend. }
    repeat split; try done.
    + cbn [sessions setInfo updSock]. by rewrite sessions_safeSend.
    + by rewrite info_setInfo, decide_True.
    + apply Hcl. by rewrite clients_safeSend.
    + cbn [outbox setInfo updSock]. rewrite outbox_safeSend.
      change (is_open st1 (dm x)) with (is_open st0 (dm x)).
      by rewrite Hopen0.
  - destruct (Hrest st1 Hsock1) as [? ?]. repeat split; try done.
    + by rewrite info_setInfo, decide_True.
    + by apply Hcl.
    + cbn [outbox setInfo updSock st1 setSessions st0]. by rewrite app_nil_r.
Qed.

Lemma onClose_participant_witness :
  let st := run hosted_session initial in
  let x := mkSession "ABC" 0 [("c-rt-1", 1)] in
  let st' := onClose 1 st in
  sessions st' = <["ABC" := withPlayers (players_delete "c-rt-1") x]> (sessions st)
  ∧ info st' 1 = None ∧ is_open st' 1 = false ∧ (1 ∉ clients st')
  ∧ (∀ t, t ≠ 1 → sock st' t = sock st t)
  ∧ outbox st' = outbox st ++
      (if decide (dm x = 1) then []
       else if is_open st (dm x) then [(dm x, PlayerLeft "c-rt-1")] else []).
Proof.
  apply (onClose_participant (run hosted_session initial) 1 "ABC" "c-rt-1"
           (mkSession "ABC" 0 [("c-rt-1", 1)])); vm_compute; reflexivity.
Defined.
End disconnects.

(** ** Relaying *)

Section relaying.
Implicit Types (st : State) (s t : SocketRef).

Lemma players_get_elem pid t (l : list (string * SocketRef)) :
  players_get pid l = Some t → (pid, t) ∈ l.
Proof.
  induction l as [|[k v] l IH]; simpl; [done|].
  case_decide; [intros [= ->]; subst; by left | intros ?; right; by apply IH].
Qed.

(** X14: a relay frame from a participant whose host is open, carrying
    an object as payload, adds exactly one frame to the outbox: the
    payload, sent to the host of its session and tagged with the id of
    the sender's own binding, whatever else the message carries. *)
Theorem onMessage_relay_from_participant st s now message c pid x payload :
  field "type" message = Some (JStr "relay") →
  info st s = Some (RolePlayer c pid) →
  sessions st !! c = Some x → is_open st (dm x) = true →
  field "payload" message = Some payload → isObject (Some payload) = true →
  onMessage s now (Some message) st
  = mkState (sockets st) (clients st) (sessions st) (clientCounter st)
            (outbox st ++ [(dm x, Relay (Some pid) payload)]).
Proof.
  intros Htype Hi Hx Ho Hp Hobj.
  unfold onMessage. destruct message as [| | | | |fields]; try done.
  simpl in Htype. simpl. rewrite Htype, Hi. simpl.
  unfold relayFromPlayer. rewrite Hi, Hx, Ho. simpl. simpl in Hp. rewrite Hp, Hobj. simpl.
  unfold safeSend. by rewrite Ho.
Qed.

Lemma onMessage_relay_from_participant_witness :
  let st := run hosted_session initial in
  let message := JObj [("type", JStr "relay"); ("playerId", JStr "someone-else");
                       ("payload", JObj [("initiative", JNum 12 0)])] in
  onMessage 1 1002 (Some message) st
  = mkState (sockets st) (clients st) (sessions st) (clientCounter st)
            (outbox st ++ [(0, Relay (Some "c-rt-1") (JObj [("initiative", JNum 12 0)]))]).
Proof.
  apply (onMessage_relay_from_participant (run hosted_session initial) 1 1002
           (JObj [("type", JStr "relay"); ("playerId", JStr "someone-else");
                  ("payload", JObj [("initiative", JNum 12 0)])])
           "ABC" "c-rt-1" (mkSession "ABC" 0 [("c-rt-1", 1)])
           (JObj [("initiative", JNum 12 0)])); vm_compute; reflexivity.
Defined.

(** X15: whatever a host relays, only the outbox changes, and every
    frame written is the structured payload of the message, untagged,
    sent to an open socket registered in the host's own session. *)
Theorem relayFromDm_within_session st s c x message :
  info st s = Some (RoleDm c) → sessions st !! c = Some x →
  let st' := relayFromDm s message st in
  sessions st' = sessions st ∧ sockets st' = sockets st
  ∧ clientCounter st' = clientCounter st
  ∧ ∃ new, outbox st' = outbox st ++ new
      ∧ ∀ t f, (t, f) ∈ new →
          t ∈ (players x).*2 ∧ is_open st t = true
          ∧ ∃ payload, field "payload" message = Some payload
                       ∧ structured (Some payload) = true ∧ f = Relay None payload.
Proof.
  intros Hi Hx st'. unfold st', relayFromDm. rewrite Hi, Hx.
  assert (∃ new, outbox st = outbox st ++ new ∧ ∀ t f, (t, f) ∈ new →
            t ∈ (players x).*2 ∧ is_open st t = true
            ∧ ∃ payload, field "payload" message = Some payload
                         ∧ structured (Some payload) = true ∧ f = Relay None payload) as Hnone.
  { exists []. split; [by rewrite app_nil_r | by intros t f ?%elem_of_nil]. }
  destruct (field "payload" message) as [payload|] eqn:Hp; [|done].
  destruct (truthy (Some payload)) eqn:Ht; [|done].
  destruct (isObject (Some payload)) eqn:Hobj; [|done]. simpl.
  assert (structured (Some payload) = true) as Hstr by (unfold structured; by rewrite Ht, Hobj).
  destruct (targetId _) as [playerId|].
  - destruct (players_get playerId (players x)) as [t|] eqn:Hget; [|done].
    rewrite sessions_safeSend, clientCounter_safeSend, outbox_safeSend.
    repeat split; [unfold safeSend; by case (is_open st t)|].
    eexists. split; [done|]. intros t' f Hin.
    destruct (is_open st t) eqn:Hopen; [|by apply elem_of_nil in Hin].
    apply list_elem_of_singleton in Hin as [= -> ->]. repeat split; eauto.
    apply list_elem_of_fmap. exists (playerId, t). split; [done | by apply players_get_elem].
  - rewrite broadcast_outbox. simpl. repeat split. eexists. split; [done|].
    intros t f ([k t'] & [= -> ->] & [Hopen Hin]%list_elem_of_filter)%list_elem_of_fmap.
    simpl in *. repeat split; eauto.
    apply list_elem_of_fmap. by exists (k, t').
Qed.

Lemma relayFromDm_within_session_witness :
  let st := run hosted_session initial in
  let message := JObj [("type", JStr "relay"); ("payload", JObj [])] in
  let st' := relayFromDm 0 message st in
  sessions st' = sessions st ∧ sockets st' = sockets st
  ∧ clientCounter st' = clientCounter st
  ∧ ∃ new, outbox st' = outbox st ++ new
      ∧ ∀ t f, (t, f) ∈ new →
          t ∈ [("c-rt-1", 1)].*2 ∧ is_open st t = true
          ∧ ∃ payload, field "payload" message = Some payload
                       ∧ structured (Some payload) = true ∧ f = Relay None payload.
Proof.
  apply (relayFromDm_within_session (run hosted_session initial) 0 "ABC"
           (mkSession "ABC" 0 [("c-rt-1", 1)])
           (JObj [("type", JStr "relay"); ("payload", JObj [])]));
    vm_compute; reflexivity.
Defined.

(** X16: a frame is ignored, leaving the state as it was, unless it
    parses to an object whose [type] is one of the four strings the
    router knows: frames that fail to parse, [null], numbers, strings,
    arrays, and objects with a missing, non-string or unknown [type]
    change nothing and are answered with nothing. *)
Theorem onMessage_ignores st s now raw :
  (∀ tag, messageType raw = Some tag →
     tag ∉ ["create-session"; "join-session"; "relay"; "close-session"]) →
  onMessage s now raw st = st.
Proof.
  intros Hunknown. unfold onMessage.
  destruct raw as [[| | | | |fields]|]; simpl; rewrite ?orb_true_r; try done.
  simpl in Hunknown. destruct (assoc "type" fields) as [[| | |tag| |]|]; try done.
  specialize (Hunknown tag eq_refl).
  repeat case_decide; try done; subst tag; destruct Hunknown;
    repeat (first [by left | right]).
Qed.

Lemma onMessage_ignores_witness :
  onMessage 1 1002 (Some (JObj [("type", JStr "ping"); ("code", JStr "ABC")]))
    (run hosted_session initial)
  = run hosted_session initial.
Proof.
  apply (onMessage_ignores (run hosted_session initial) 1 1002
           (Some (JObj [("type", JStr "ping"); ("code", JStr "ABC")]))).
  intros tag [= <-]. intros H. repeat (apply elem_of_cons in H as [H|H]; [discriminate|]).
  by apply elem_of_nil in H.
Defined.
End relaying.

(** ** Identifiers are injective *)

Section identifier_text.

Lemma toString36Z_inj z z' : toString36Z z = toString36Z z' → z = z'.
Proof.
  assert (∀ p n, ("-"%char :: toString36 (Npos p)) ≠ toString36 n) as Hdash.
  { intros p n E. apply (toString36_no_dash n). rewrite <- E. by left. }
  destruct z as [|p|p], z' as [|q|q]; simpl; intros E;
    try (by apply Hdash in E); try (symmetry in E; by apply Hdash in E).
  - done.
  - by apply toString36_inj in E.
  - by apply toString36_inj in E.
  - apply toString36_inj in E. by injection E as ->.
  - injection E as E. apply toString36_inj in E. by injection E as ->.
Qed.

(** X17: the text of a participant id determines both the clock value
    and the counter value it was built from. *)
Theorem clientId_inj now k now' k' :
  clientId now k = clientId now' k' → now = now' ∧ k = k'.
Proof.
  intros E. pose proof (clientId_counter _ _ _ _ E) as ->. split; [|done].
  unfold clientId in E. apply (f_equal list_ascii_of_string) in E.
  rewrite !list_ascii_of_string_of_list_ascii in E. injection E as E.
  apply app_inv_tail in E. by apply toString36Z_inj.
Qed.

Lemma clientId_inj_witness : 1001%Z = 1001%Z ∧ 1%N = 1%N.
Proof. exact (clientId_inj 1001 1 1001 1 eq_refl). Defined.
End identifier_text.

(** ** Invariants by cases on the event *)

Section by_cases.
Implicit Types (st : State) (s t : SocketRef).

Lemma shrinks_relayFromPlayer s message st : shrinks st (relayFromPlayer s message st).
Proof.
  unfold relayFromPlayer, sessionUnavailable.
  assert (shrinks st (detachClient s (Some "Session unavailable.") false
                        (safeSend s (SessionClosed None) st))) as Hgone.
  { eapply shrinks_trans; [apply shrinks_safeSend | apply shrinks_detachClient]. }
  destruct (info st s) as [[c|c pid]|]; try apply shrinks_refl.
  destruct (sessions st !! c) as [x|]; [|done].
  case (negb _); [done|].
  destruct (field "payload" message) as [payload|]; [|apply shrinks_refl].
  case (negb _); [apply shrinks_refl | apply shrinks_safeSend].
Qed.

Lemma shrinks_relayFromDm s message st : shrinks st (relayFromDm s message st).
Proof.
  unfold relayFromDm.
  destruct (info st s) as [[c|c pid]|]; try apply shrinks_refl.
  destruct (sessions st !! c) as [x|]; [|apply shrinks_refl].
  destruct (field "payload" message) as [payload|]; [|apply shrinks_refl].
  case (_ || _); [apply shrinks_refl|].
  destruct (targetId _) as [playerId|].
  - destruct (players_get _ _); [apply shrinks_safeSend | apply shrinks_refl].
  - rewrite broadcast_outbox. apply shrinks_sockets; eauto.
Qed.

Lemma shrinks_handleCloseSession s st : shrinks st (handleCloseSession s st).
Proof.
  unfold handleCloseSession.
  destruct (info st s) as [[c|c pid]|]; try apply shrinks_refl.
  destruct (sessions st !! c) as [x|]; [|apply shrinks_refl].
  case_decide; [|apply shrinks_refl].
  eapply shrinks_trans; [apply shrinks_endSession | apply shrinks_unbind].
Qed.

Lemma shrinks_onClose s st : shrinks st (onClose s st).
Proof.
  rewrite onClose_unfold. eapply shrinks_trans; [|apply shrinks_detachClient].
  apply shrinks_sockets; try done.
  - intros t. left.
    change (info (setReady s CLOSED st) t = info st t). apply info_setReady.
  - intros t.
    change (is_open (setReady s CLOSED st) t = true → is_open st t = true).
    rewrite is_open_setReady_closed. by case_decide.
Qed.

(** To show that a property holds in every reachable state, it is enough
    to show that it holds at the start, survives every teardown, and
    survives a create, a join and a new connection. *)
Lemma reachable_by_cases (P : State → Prop) :
  P initial →
  (∀ st st', reachable st → shrinks st st' → P st → P st') →
  (∀ st s message, reachable st → P st → P (handleCreateSession s message st)) →
  (∀ st s now message, reachable st → P st → P (handleJoinSession s now message st)) →
  (∀ st s, reachable st → sockets st !! s = None → P st → P (onConnection s st)) →
  ∀ st, reachable st → P st.
Proof.
  intros Hinit Hshrink Hcreate Hjoin Hconn st Hr.
  induction Hr as [|ev st Hr IH]; [done|].
  destruct ev as [s | s now raw | s | s | s |]; simpl.
  - case_decide; [by apply Hconn | done].
  - case (connected st s); [|done]. unfold onMessage.
    destruct raw as [message|]; [|done]. case (_ || _); [done|].
    destruct (field "type" message) as [[| | |tag| |]|]; try done.
    repeat case_decide; try done; [by apply Hcreate | by apply Hjoin | |].
    + case (isDm _); (eapply Hshrink; [done| |done]);
        [apply shrinks_relayFromDm | apply shrinks_relayFromPlayer].
    + eapply Hshrink; [done|apply shrinks_handleCloseSession|done].
  - case (connected st s); [|done]. eapply Hshrink; [done|apply shrinks_setAlive|done].
  - case (connected st s); [|done]. eapply Hshrink; [done|apply shrinks_socketClose|done].
  - case (connected st s); [|done]. eapply Hshrink; [done|apply shrinks_onClose|done].
  - eapply Hshrink; [done|apply shrinks_heartbeat_fold|done].
Qed.

(** X18: in every reachable state each session is stored under a code
    that is not empty, is the [code] field of the session, and is its
    own normal form: a join that sends a registered code as it is
    addresses that session. *)
Theorem registered_codes_normal st c x :
  reachable st → sessions st !! c = Some x →
  code x = c ∧ c ≠ "" ∧ normalizeCode (Some (JStr c)) = c.
Proof.
  intros Hr Hx. destruct (inv_keyed _ (reachable_Inv _ Hr) _ _ Hx) as [Hcode Hne].
  repeat split; try done. clear Hcode Hne. revert c x Hx. change (codes_normal st).
  revert st Hr. apply reachable_by_cases.
  - by intros c x.
  - intros st st' _ (_ & Hs & _) Hn c x' Hx'.
    destruct (Hs _ _ Hx') as (x & Hx & _). eauto.
  - intros st s message _ Hn. unfold handleCreateSession.
    case_decide; [intros c x; rewrite sessions_safeSend; apply Hn|].
    case (isDm _); [intros c x; rewrite sessions_safeSend; apply Hn|].
    case_decide; [intros c x; rewrite sessions_safeSend; apply Hn|].
    intros c x. rewrite sessions_safeSend. simpl. rewrite lookup_insert.
    case_decide; [|apply Hn]. intros _. subst c. apply normalizeCode_normal.
  - intros st s now message _ Hn. unfold handleJoinSession.
    case_decide; [intros c x; rewrite sessions_safeSend; apply Hn|].
    destruct (sessions st !! _) as [x0|]; [|intros c x; rewrite sessions_safeSend; apply Hn].
    case (negb _); [intros c x; rewrite sessions_safeSend; apply Hn|].
    set (st1 := match info st s with Some _ => detachClient s None true st | None => st end).
    assert (shrinks st st1) as (_ & Hs & _).
    { unfold st1. destruct (info st s); [apply shrinks_detachClient | apply shrinks_refl]. }
    unfold createClientId. intros c x. rewrite !sessions_safeSend. simpl.
    rewrite lookup_alter. case_decide.
    + destruct (sessions st1 !! _) as [x1|] eqn:Hx1; [|done]. intros _.
      subst c. destruct (Hs _ _ Hx1) as (x2 & Hx2 & _). eauto.
    + intros Hx1. destruct (Hs _ _ Hx1) as (x2 & Hx2 & _). eauto.
  - intros st s _ _ Hn. apply Hn.
Qed.

Lemma registered_codes_normal_witness :
  let st := run hosted_session initial in
  let x := mkSession "ABC" 0 [("c-rt-1", 1)] in
  code x = "ABC" ∧ "ABC" ≠ "" ∧ normalizeCode (Some (JStr "ABC")) = "ABC".
Proof.
  apply (registered_codes_normal (run hosted_session initial) "ABC"
           (mkSession "ABC" 0 [("c-rt-1", 1)]) (reachable_run _)).
  vm_compute. reflexivity.
Defined.
End by_cases.

Section unique_ids.
Implicit Types (st : State) (s t : SocketRef).

Lemma ids_unique_shrinks st st' : shrinks st st' → ids_unique st → ids_unique st'.
Proof.
  intros (Hi & Hs & _) (U1 & U2 & U3).
  assert (∀ s c p, info st' s = Some (RolePlayer c p) → info st s = Some (RolePlayer c p))
    as Hb.
  { intros s c p E. destruct (Hi s) as [E'|E']; congruence. }
  assert (∀ c x' p t, sessions st' !! c = Some x' → (p, t) ∈ players x' →
            ∃ x, sessions st !! c = Some x ∧ (p, t) ∈ players x) as He.
  { intros c x' p t Hx' Hin. destruct (Hs _ _ Hx') as (x & Hx & _ & _ & Hsub). eauto. }
  split; [|split].
  - intros s t c c' p E1 E2. eapply U1; eauto.
  - intros c x t c' x' t' p Hx Hin Hx' Hin'.
    destruct (He _ _ _ _ Hx Hin) as (y & Hy & Hiny).
    destruct (He _ _ _ _ Hx' Hin') as (y' & Hy' & Hiny'). eapply U2; eauto.
  - intros s c p c' x' t E Hx' Hin'.
    destruct (He _ _ _ _ Hx' Hin') as (y' & Hy' & Hiny'). eapply U3; eauto.
Qed.

Lemma ids_unique_create s message st :
  ids_unique st → ids_unique (handleCreateSession s message st).
Proof.
  intros HU. unfold handleCreateSession.
  case_decide; [by eapply ids_unique_shrinks; [apply shrinks_safeSend|]|].
  case (isDm _); [by eapply ids_unique_shrinks; [apply shrinks_safeSend|]|].
  case_decide; [by eapply ids_unique_shrinks; [apply shrinks_safeSend|]|].
  eapply ids_unique_shrinks; [apply shrinks_safeSend|].
  set (c := normalizeCode (field "code" message)).
  destruct HU as (U1 & U2 & U3).
  assert (∀ t c' p, info (setInfo s (Some (RoleDm c))
             (setSessions (<[c := mkSession c s []]> (sessions st)) st)) t
             = Some (RolePlayer c' p) → info st t = Some (RolePlayer c' p)) as Hb.
  { intros t c' p. rewrite info_setInfo. by case_decide. }
  assert (∀ c' x' p t, (<[c := mkSession c s []]> (sessions st)) !! c' = Some x' →
            (p, t) ∈ players x' → sessions st !! c' = Some x') as He.
  { intros c' x' p t. rewrite lookup_insert. case_decide; [|done].
    intros [= <-]. simpl. by intros ?%elem_of_nil. }
  split; [|split].
  - intros t t' c1 c2 p E1 E2. eapply U1; eauto.
  - intros c1 x t c2 x' t' p Hx Hin Hx' Hin'. simpl in Hx, Hx'. eapply U2; eauto.
  - intros t c1 p c2 x' t' E Hx' Hin'. simpl in Hx'. eapply U3; eauto.
Qed.

Lemma ids_unique_join s now message st :
  reachable st → ids_unique st → ids_unique (handleJoinSession s now message st).
Proof.
  intros Hr HU.
  destruct (reachable_Inv _ Hr) as [Hk _ Hids].
  set (c := normalizeCode (field "code" message)).
  destruct (decide (c = "")) as [Hc|Hc];
    [|destruct (sessions st !! c) as [x|] eqn:Hx;
      [destruct (is_open st (dm x)) eqn:Ho|]].
  1,3,4: eapply ids_unique_shrinks; [|exact HU];
    rewrite (handleJoinSession_refused st s now message);
    [apply shrinks_safeSend | fold c; eauto].
  rewrite (handleJoinSession_success s now message st x) by done. fold c.
  set (pid := clientId now (clientCounter st + 1)).
  set (st1 := detachClient s None true st).
  pose proof (shrinks_detachClient s None true st) as Hsh. fold st1 in Hsh.
  destruct (ids_unique_shrinks _ _ Hsh HU) as (U1 & U2 & U3).
  destruct (ids_shrinks _ _ Hsh Hids) as [Hb Hp].
  destruct Hsh as (_ & _ & Hcount & _). rewrite Hcount in Hb, Hp.
  assert (∀ t c' p, info st1 t = Some (RolePlayer c' p) → p ≠ pid) as F1.
  { intros t c' p E. exact (issued_fresh _ _ now (Hb _ _ _ E)). }
  assert (∀ c' x' p t, sessions st1 !! c' = Some x' → (p, t) ∈ players x' → p ≠ pid) as F2.
  { intros c' x' p t E Hin. exact (issued_fresh _ _ now (Hp _ _ _ _ E Hin)). }
  set (st' := safeSend _ _ _).
  assert (∀ t c' p, info st' t = Some (RolePlayer c' p) →
            (t = s ∧ c' = c ∧ p = pid) ∨ info st1 t = Some (RolePlayer c' p)) as B.
  { intros t c' p. unfold st'. rewrite !info_safeSend, info_setInfo. case_decide.
    - intros [= <- <-]. by left.
    - intros E. by right. }
  assert (∀ c' x' p t, sessions st' !! c' = Some x' → (p, t) ∈ players x' →
            (p = pid ∧ t = s ∧ c' = c)
            ∨ ∃ x1, sessions st1 !! c' = Some x1 ∧ (p, t) ∈ players x1) as E.
  { intros c' x' p t. unfold st'. rewrite !sessions_safeSend.
    cbn [sessions setInfo updSock setSessions]. rewrite lookup_alter. case_decide as Ec.
    - destruct (sessions st1 !! c) as [x1|] eqn:Hx1; [|done]. intros [= <-]. simpl.
      intros [Hin|[= -> ->]]%players_set_elem; [right | by left].
      subst c'. eauto.
    - intros Hx1 Hin. right. eauto. }
  split; [|split].
  - intros t t' c1 c2 p H1 H2. apply B in H1, H2.
    destruct H1 as [(? & ? & ?)|E1], H2 as [(? & ? & ?)|E2]; subst; try done.
    + by apply F1 in E2.
    + by apply F1 in E1.
    + eapply U1; eauto.
  - intros c1 x1 t c2 x2 t' p Hx1 Hin1 Hx2 Hin2.
    destruct (E _ _ _ _ Hx1 Hin1) as [(? & ? & ?)|(y1 & Hy1 & Hiny1)],
             (E _ _ _ _ Hx2 Hin2) as [(? & ? & ?)|(y2 & Hy2 & Hiny2)]; subst; try done.
    + by apply (F2 _ _ _ _ Hy2) in Hiny2.
    + by apply (F2 _ _ _ _ Hy1) in Hiny1.
    + eapply U2; eauto.
  - intros t c1 p c2 x2 t' H1 Hx2 Hin2. apply B in H1.
    destruct H1 as [(? & ? & ?)|E1],
             (E _ _ _ _ Hx2 Hin2) as [(? & ? & ?)|(y2 & Hy2 & Hiny2)]; subst; try done.
    + by apply (F2 _ _ _ _ Hy2) in Hiny2.
    + by apply F1 in E1.
    + eapply U3; eauto.
Qed.

Lemma ids_unique_reachable st : reachable st → ids_unique st.
Proof.
  revert st. apply reachable_by_cases.
  - split; [|split]; intros *; done.
  - intros st st' _ Hsh. by apply ids_unique_shrinks.
  - intros st s message _. apply ids_unique_create.
  - intros st s now message. apply ids_unique_join.
  - intros st s _ Hnew (U1 & U2 & U3).
    assert (∀ t, info (onConnection s st) t = info st t) as Hinfo.
    { intros t. unfold info, sock, onConnection; simpl.
      destruct (decide (s = t)) as [<-|].
      - by rewrite lookup_insert_eq, Hnew.
      - by rewrite lookup_insert_ne. }
    split; [|split].
    + intros t t' c c' p. rewrite !Hinfo. apply U1.
    + apply U2.
    + intros t c p c' x' t'. rewrite Hinfo. apply U3.
Qed.

(** X19: in every reachable state a participant id names one
    participant: no two sockets are bound under the same id, no id is
    registered twice, in one session or in two, and an id that is both
    bound and registered is registered for the socket bound under it, in
    the session of its binding. *)
Theorem reachable_ids_unique st : reachable st → ids_unique st.
Proof. apply ids_unique_reachable. Qed.

Lemma reachable_ids_unique_witness :
  ids_unique (run (hosted_session ++
    [ EvConnection 2; EvMessage 2 1002 (msg "join-session" [("code", JStr "abc")]) ])
    initial).
Proof. exact (reachable_ids_unique _ (reachable_run _)). Defined.
End unique_ids.

(** ** What a disconnect and a create leave alone *)

Section locality.
Implicit Types (st : State) (s t : SocketRef).

(** X20: the [close] event of a socket that is not bound, be it never
    bound or already torn down by a heartbeat, a closed session or a
    failed relay, sends nothing and changes no session and no binding;
    only that socket's ready state and its place among the clients
    change. *)
Theorem onClose_unbound st s :
  info st s = None →
  let st' := onClose s st in
  sessions st' = sessions st ∧ outbox st' = outbox st
  ∧ clientCounter st' = clientCounter st
  ∧ clients st' = filter (λ c, c ≠ s) (clients st)
  ∧ (∀ t, info st' t = info st t)
  ∧ (∀ t, t ≠ s → sock st' t = sock st t).
Proof.
  intros Hi st'. unfold st'. rewrite onClose_unfold.
  rewrite detachClient_unbound.
  2:{ change (info (setReady s CLOSED st) s = None). by rewrite info_setReady. }
  repeat split.
  - intros t. change (info (setReady s CLOSED st) t = info st t). apply info_setReady.
  - intros t Hne. change (sock (setReady s CLOSED st) t = sock st t).
    unfold setReady. by rewrite sock_updSock, decide_False.
Qed.

Lemma onClose_unbound_witness :
  let st := heartbeatInterval (heartbeatInterval (run hosted_session initial)) in
  let st' := onClose 1 st in
  sessions st' = sessions st ∧ outbox st' = outbox st
  ∧ clientCounter st' = clientCounter st
  ∧ clients st' = filter (λ c, c ≠ 1) (clients st)
  ∧ (∀ t, info st' t = info st t)
  ∧ (∀ t, t ≠ 1 → sock st' t = sock st t).
Proof.
  apply (onClose_unbound (heartbeatInterval (heartbeatInterval (run hosted_session initial))) 1).
  vm_compute. reflexivity.
Defined.

(** X21: a create-session request, accepted or not, touches nothing but
    the requester and the entry of the requested code: every other
    session keeps its players, the requester's own entry in a session it
    had joined included, every other socket is unchanged, the requester
    is not closed, no id is used up, and every frame written goes to
    the requester. *)
Theorem handleCreateSession_local st s message :
  let c := normalizeCode (field "code" message) in
  let st' := handleCreateSession s message st in
  (∀ c', c' ≠ c → sessions st' !! c' = sessions st !! c')
  ∧ (∀ t, t ≠ s → sock st' t = sock st t)
  ∧ readyState (sock st' s) = readyState (sock st s)
  ∧ clientCounter st' = clientCounter st
  ∧ clients st' = clients st
  ∧ ∃ new, outbox st' = outbox st ++ new ∧ ∀ e, e ∈ new → e.1 = s.
Proof.
  intros c st'.
  assert (∀ fr, (∀ c', c' ≠ c →
              sessions (safeSend s fr st) !! c' = sessions st !! c')
            ∧ (∀ t, t ≠ s → sock (safeSend s fr st) t = sock st t)
            ∧ readyState (sock (safeSend s fr st) s) = readyState (sock st s)
            ∧ clientCounter (safeSend s fr st) = clientCounter st
            ∧ clients (safeSend s fr st) = clients st
            ∧ ∃ new, outbox (safeSend s fr st) = outbox st ++ new
                ∧ ∀ e, e ∈ new → e.1 = s) as Hsend.
  { intros fr. rewrite sessions_safeSend, clientCounter_safeSend, clients_safeSend,
      outbox_safeSend. repeat split; try (intros; by rewrite ?sock_safeSend).
    eexists. split; [done|]. intros e He.
    destruct (is_open st s); [|by apply elem_of_nil in He].
    by apply list_elem_of_singleton in He as ->. }
  unfold st', handleCreateSession. fold c.
  case_decide; [apply Hsend|]. case (isDm _); [apply Hsend|].
  case_decide; [apply Hsend|].
  rewrite sessions_safeSend, clientCounter_safeSend, clients_safeSend, outbox_safeSend.
  repeat split.
  - intros c' Hne. simpl. by rewrite lookup_insert_ne.
  - intros t Hne. rewrite sock_safeSend. unfold setInfo.
    by rewrite sock_updSock, decide_False.
  - rewrite sock_safeSend. unfold setInfo. by rewrite sock_updSock, decide_True.
  - eexists. split; [done|]. intros e He.
    destruct (is_open _ s); [|by apply elem_of_nil in He].
    by apply list_elem_of_singleton in He as ->.
Qed.
End locality.

(** ** Delivery of a host relay *)

Section host_relay.
Implicit Types (st : State) (s t : SocketRef).

Lemma players_get_is_Some pid t (l : list (string * SocketRef)) :
  (pid, t) ∈ l → is_Some (players_get pid l).
Proof.
  induction l as [|[k v] l IH]; [by intros ?%elem_of_nil|]. simpl.
  case_decide as E; [by eexists|].
  intros [[= -> ->]|Hin]%elem_of_cons; [done | by apply IH].
Qed.

(** C5: a host relays a structured payload.  With a participant id in
    the message, the one frame written goes to the socket registered
    under that id in the host's session, and none is written when no
    socket is registered under it; without an id, one frame goes to
    each registered participant, in registration order, and to no other
    socket.  A frame is written to a socket only if it is open, and
    nothing but the outbox changes. *)
Theorem relayFromDm_delivery st s c x message payload :
  reachable st →
  info st s = Some (RoleDm c) →
  sessions st !! c = Some x →
  field "payload" message = Some payload →
  structured (Some payload) = true →
  let st' := relayFromDm s message st in
  sessions st' = sessions st
  ∧ sockets st' = sockets st
  ∧ (∀ id t, field "playerId" message = Some (JStr id) → id ≠ "" →
       (id, t) ∈ players x →
       outbox st' = outbox st ++ (if is_open st t then [(t, Relay None payload)] else []))
  ∧ (∀ id, field "playerId" message = Some (JStr id) → id ≠ "" →
       (∀ t, (id, t) ∉ players x) →
       outbox st' = outbox st)
  ∧ (field "playerId" message = None →
       outbox st' = outbox st ++
         map (λ e, (e.2, Relay None payload))
             (filter (λ e, is_open st e.2 = true) (players x))).
Proof.
  intros Hr Hi Hx Hp Hstruct.
  destruct (ids_unique_reachable _ Hr) as (_ & U2 & _).
  unfold relayFromDm. rewrite Hi, Hx, Hp.
  apply andb_prop in Hstruct as [Ht Ho]. rewrite Ht, Ho. simpl.
  assert (∀ id, field "playerId" message = Some (JStr id) → id ≠ "" →
            targetId (field "playerId" message) = Some id) as Htarget.
  { intros id -> Hne. simpl. by rewrite bool_decide_false. }
  destruct (field "playerId" message) as [v|] eqn:Hf.
  - assert (∀ id, Some v = Some (JStr id) → id ≠ "" →
              sessions (match players_get id (players x) with
                        | Some t => safeSend t (Relay None payload) st
                        | None => st end) = sessions st
              ∧ sockets (match players_get id (players x) with
                         | Some t => safeSend t (Relay None payload) st
                         | None => st end) = sockets st) as Hsame.
    { intros id _ _. destruct (players_get id (players x)) as [t|]; [|done].
      rewrite sessions_safeSend. split; [done|]. unfold safeSend. by case (is_open st t). }
    destruct (targetId (Some v)) as [id'|] eqn:Etarget.
    + assert (v = JStr id' ∧ id' ≠ "") as [-> Hne'].
      { destruct v as [| | |id0| |]; try done. simpl in Etarget.
        case_bool_decide; simplify_eq/=. done. }
      destruct (Hsame id' eq_refl Hne') as [Hs Hk]. repeat split; try done.
      * intros id t [= <-] _ Hin.
        destruct (players_get_is_Some _ _ _ Hin) as [t' Hget]. rewrite Hget.
        pose proof (players_get_elem _ _ _ Hget) as Hin'.
        destruct (U2 _ _ _ _ _ _ _ Hx Hin Hx Hin') as [_ <-].
        apply outbox_safeSend.
      * intros id [= <-] _ Hnone. by rewrite (players_get_None _ _ Hnone).
    + rewrite broadcast_outbox. simpl. repeat split; try done.
      * intros id t E Hne _. discriminate (Htarget id E Hne).
      * intros id E Hne _. discriminate (Htarget id E Hne).
  - simpl. rewrite broadcast_outbox. simpl. repeat split; done.
Qed.

(** Three relays of the host of ABC: to the id of its participant, to an
    id that is not registered, and to everyone. *)
Lemma relayFromDm_delivery_witness :
  let st := run hosted_session initial in
  let payload := JObj [("initiative", JNum 12 0)] in
  let relay fields := relayFromDm 0 (JObj (("type", JStr "relay") :: ("payload", payload) :: fields)) st in
  outbox (relay [("playerId", JStr "c-rt-1")])
  = outbox st ++ (if is_open st 1 then [(1, Relay None payload)] else [])
  ∧ outbox (relay [("playerId", JStr "c-zz-9")]) = outbox st
  ∧ outbox (relay [])
    = outbox st ++ map (λ e, (e.2, Relay None payload))
                       (filter (λ e, is_open st e.2 = true) [("c-rt-1", 1)]).
Proof.
  assert (∀ fields,
    let st := run hosted_session initial in
    let payload := JObj [("initiative", JNum 12 0)] in
    let message := JObj (("type", JStr "relay") :: ("payload", payload) :: fields) in
    let st' := relayFromDm 0 message st in
    (∀ id t, field "playerId" message = Some (JStr id) → id ≠ "" →
       (id, t) ∈ [("c-rt-1", 1)] →
       outbox st' = outbox st ++ (if is_open st t then [(t, Relay None payload)] else []))
    ∧ (∀ id, field "playerId" message = Some (JStr id) → id ≠ "" →
         (∀ t, (id, t) ∉ [("c-rt-1", 1)]) → outbox st' = outbox st)
    ∧ (field "playerId" message = None →
         outbox st' = outbox st ++
           map (λ e, (e.2, Relay None payload))
               (filter (λ e, is_open st e.2 = true) [("c-rt-1", 1)]))) as H.
  { intros fields.
    apply (relayFromDm_delivery (run hosted_session initial) 0 "ABC"
             (mkSession "ABC" 0 [("c-rt-1", 1)])
             (JObj (("type", JStr "relay") :: ("payload", JObj [("initiative", JNum 12 0)])
                    :: fields))
             (JObj [("initiative", JNum 12 0)]) (reachable_run _));
      vm_compute; reflexivity. }
  split; [|split].
  - apply (H [("playerId", JStr "c-rt-1")]) with (id := "c-rt-1");
      [reflexivity | discriminate | by left].
  - apply (H [("playerId", JStr "c-zz-9")]) with (id := "c-zz-9");
      [reflexivity | discriminate |].
    intros t [[=]|[]%elem_of_nil]%elem_of_cons.
  - by apply (H []).
Defined.
End host_relay.
